(** * libmpack-python: a shallow embedding of the MessagePack codec, the RPC
    session, the hypothesis reference packers of [strategies.py], the
    [_Nan] test sentinel and the [compat.bfmt] helper. *)

From Stdlib Require Import ZArith Lia Bool.
From stdpp Require Import gmap list.

Open Scope Z_scope.
Set Warnings "-register-all".

(* ------------------------------------------------------------------ *)
(** ** Results *)

Inductive result (A E : Type) : Type :=
| Ok : A -> result A E
| Err : E -> result A E.
Arguments Ok {A E} _.
Arguments Err {A E} _.

Definition res_bind {A B E} (m : result A E) (f : A -> result B E) : result B E :=
  match m with
  | Ok a => f a
  | Err e => Err e
  end.

Notation "'let!' x ':=' m 'in' f" := (res_bind m (fun x => f))
  (at level 200, x binder, right associativity).

(* ------------------------------------------------------------------ *)
(** ** Bytes and big-endian fields *)

(** [be k n]: the [k] low bytes of [n], most significant first; for a
    negative [n] this is its two's complement (numpy's [tobytes] on a
    big-endian dtype). *)
Fixpoint be (k : nat) (n : Z) : list Z :=
  match k with
  | O => []
  | S k' => (n / 256 ^ Z.of_nat k') mod 256 :: be k' n
  end.

Inductive decode_error :=
| ReservedTag
| Truncated
| BadUtf8
| UnknownExtensionCode.

Inductive encode_error :=
| UnencodableType
| OversizedPayload
| NonUtf8Text.

Fixpoint read_be (k : nat) (bs : list Z) : result (Z * list Z) decode_error :=
  match k with
  | O => Ok (0, bs)
  | S k' =>
      match bs with
      | [] => Err Truncated
      | b :: t => let! '(v, r) := read_be k' t in Ok (b * 256 ^ Z.of_nat k' + v, r)
      end
  end.

(** Two's complement reading of a [k]-byte field. *)
Definition read_be_signed (k : nat) (bs : list Z) : result (Z * list Z) decode_error :=
  let! '(u, r) := read_be k bs in
  Ok (if 2 ^ (8 * Z.of_nat k - 1) <=? u then u - 256 ^ Z.of_nat k else u, r).

Definition read_bytes (n : Z) (bs : list Z) : result (list Z * list Z) decode_error :=
  if Z.of_nat (length bs) <? n then Err Truncated
  else Ok (take (Z.to_nat n) bs, drop (Z.to_nat n) bs).

(* ------------------------------------------------------------------ *)
(** ** UTF-8 well-formedness (RFC 3629) *)

Definition in_rng (lo hi b : Z) : bool := (lo <=? b) && (b <=? hi).
Definition cont (b : Z) : bool := in_rng 0x80 0xBF b.

Fixpoint utf8_valid (l : list Z) : bool :=
  match l with
  | [] => true
  | b :: t =>
      if in_rng 0x00 0x7F b then utf8_valid t
      else if in_rng 0xC2 0xDF b then
        match t with c :: t' => cont c && utf8_valid t' | _ => false end
      else if in_rng 0xE0 0xEF b then
        match t with
        | c1 :: c2 :: t' =>
            (if b =? 0xE0 then in_rng 0xA0 0xBF c1
             else if b =? 0xED then in_rng 0x80 0x9F c1 else cont c1)
            && cont c2 && utf8_valid t'
        | _ => false
        end
      else if in_rng 0xF0 0xF4 b then
        match t with
        | c1 :: c2 :: c3 :: t' =>
            (if b =? 0xF0 then in_rng 0x90 0xBF c1
             else if b =? 0xF4 then in_rng 0x80 0x8F c1 else cont c1)
            && cont c2 && cont c3 && utf8_valid t'
        | _ => false
        end
      else false
  end.

(* ------------------------------------------------------------------ *)
(** ** Values *)

(** The values the binding exchanges with Python: [None], [bool], [int]
    (one constructor: Python compares integers by value, so a positive
    fixnum and a uint8 decode to the same object), float32/float64 bit
    patterns, [bytes], [str] (its UTF-8 bytes), [list], ordered [dict]
    (a list of pairs, wire order) and an extension object. *)
Inductive value :=
| VNil
| VBool (b : bool)
| VInt (n : Z)
| VFloat32 (bits : Z)
| VFloat64 (bits : Z)
| VBin (data : list Z)
| VStr (data : list Z)
| VArray (items : list value)
| VMap (pairs : list (value * value))
| VExt (code : Z) (data : list Z).

(** Nested induction principle for [value]. *)
Section value_ind'.
Variable P : value -> Prop.
Hypothesis HNil : P VNil.
Hypothesis HBool : forall b, P (VBool b).
Hypothesis HInt : forall n, P (VInt n).
Hypothesis HF32 : forall n, P (VFloat32 n).
Hypothesis HF64 : forall n, P (VFloat64 n).
Hypothesis HBin : forall d, P (VBin d).
Hypothesis HStr : forall d, P (VStr d).
Hypothesis HArray : forall l, Forall P l -> P (VArray l).
Hypothesis HMap : forall l, Forall (fun kv => P kv.1 /\ P kv.2) l -> P (VMap l).
Hypothesis HExt : forall c d, P (VExt c d).

Fixpoint value_ind' (v : value) : P v :=
    match v with
    | VNil => HNil
    | VBool b => HBool b
    | VInt n => HInt n
    | VFloat32 n => HF32 n
    | VFloat64 n => HF64 n
    | VBin d => HBin d
    | VStr d => HStr d
    | VArray l =>
        HArray l ((fix go (l : list value) : Forall P l :=
                     match l with
                     | [] => Forall_nil_2 _
                     | x :: t => Forall_cons_2 _ x t (value_ind' x) (go t)
                     end) l)
    | VMap l =>
        HMap l ((fix go (l : list (value * value)) : Forall (fun kv => P kv.1 /\ P kv.2) l :=
                   match l with
                   | [] => Forall_nil_2 _
                   | kv :: t =>
                       Forall_cons_2 _ kv t
                         (conj (value_ind' kv.1) (value_ind' kv.2)) (go t)
                   end) l)
    | VExt c d => HExt c d
    end.
End value_ind'.

(* ------------------------------------------------------------------ *)
(** ** Extension registry *)

(** Modelled from the spec: the extension registry of [mpack.Packer] and
    [mpack.Unpacker] (§4.3), absent from src/: no extensions configured, a
    callable pair [value -> (code, payload)] / [(code, payload) -> value],
    or a finite mapping from code to a value-constructing callable. *)
Inductive ext_registry :=
| NoExt
| ExtCallable (ext_pack : value -> option (Z * list Z)) (ext_unpack : Z -> list Z -> value)
| ExtMapping (table : gmap Z (list Z -> value)).

(** [strategies.ext_pack] / [strategies.ext_unpack]: an extension object
    is its [(code, data)]. *)
Definition ext_std : ext_registry :=
  ExtCallable (fun v => match v with VExt c d => Some (c, d) | _ => None end) VExt.

Definition ext_match (R : ext_registry) (v : value) : option (Z * list Z) :=
  match R with
  | ExtCallable p _ => p v
  | _ => None
  end.

(* ------------------------------------------------------------------ *)
(** ** Encoder *)

(** Modelled from the spec: [mpack.Packer] (§4.1), absent from src/.
    Every header below is the smallest one whose range fits. *)
Definition pack_int (n : Z) : result (list Z) encode_error :=
  if in_rng 0 127 n then Ok [n]
  else if in_rng (-32) (-1) n then Ok [256 + n]
  else if 0 <=? n then
    if n <? 2 ^ 8 then Ok (0xCC :: be 1 n)
    else if n <? 2 ^ 16 then Ok (0xCD :: be 2 n)
    else if n <? 2 ^ 32 then Ok (0xCE :: be 4 n)
    else if n <? 2 ^ 64 then Ok (0xCF :: be 8 n)
    else Err OversizedPayload
  else if - 2 ^ 7 <=? n then Ok (0xD0 :: be 1 n)
  else if - 2 ^ 15 <=? n then Ok (0xD1 :: be 2 n)
  else if - 2 ^ 31 <=? n then Ok (0xD2 :: be 4 n)
  else if - 2 ^ 63 <=? n then Ok (0xD3 :: be 8 n)
  else Err OversizedPayload.

Definition str_header (len : Z) : result (list Z) encode_error :=
  if len <=? 31 then Ok [Z.lor 0xA0 len]
  else if len <=? 255 then Ok (0xD9 :: be 1 len)
  else if len <=? 65535 then Ok (0xDA :: be 2 len)
  else if len <=? 2 ^ 32 - 1 then Ok (0xDB :: be 4 len)
  else Err OversizedPayload.

Definition bin_header (len : Z) : result (list Z) encode_error :=
  if len <=? 255 then Ok (0xC4 :: be 1 len)
  else if len <=? 65535 then Ok (0xC5 :: be 2 len)
  else if len <=? 2 ^ 32 - 1 then Ok (0xC6 :: be 4 len)
  else Err OversizedPayload.

Definition array_header (len : Z) : result (list Z) encode_error :=
  if len <=? 15 then Ok [Z.lor 0x90 len]
  else if len <=? 65535 then Ok (0xDC :: be 2 len)
  else if len <=? 2 ^ 32 - 1 then Ok (0xDD :: be 4 len)
  else Err OversizedPayload.

Definition map_header (len : Z) : result (list Z) encode_error :=
  if len <=? 15 then Ok [Z.lor 0x80 len]
  else if len <=? 65535 then Ok (0xDE :: be 2 len)
  else if len <=? 2 ^ 32 - 1 then Ok (0xDF :: be 4 len)
  else Err OversizedPayload.

Definition ext_header (len code : Z) : result (list Z) encode_error :=
  if len =? 1 then Ok [0xD4; code]
  else if len =? 2 then Ok [0xD5; code]
  else if len =? 4 then Ok [0xD6; code]
  else if len =? 8 then Ok [0xD7; code]
  else if len =? 16 then Ok [0xD8; code]
  else if len <=? 255 then Ok (0xC7 :: be 1 len ++ [code])
  else if len <=? 65535 then Ok (0xC8 :: be 2 len ++ [code])
  else if len <=? 2 ^ 32 - 1 then Ok (0xC9 :: be 4 len ++ [code])
  else Err OversizedPayload.

Definition pack_ext (code : Z) (data : list Z) : result (list Z) encode_error :=
  if in_rng 0 127 code then
    let! h := ext_header (Z.of_nat (length data)) code in Ok (h ++ data)
  else Err UnencodableType.

Definition zlen {A} (l : list A) : Z := Z.of_nat (length l).

(** Packs the elements one after the other. *)
Fixpoint concat_results {A} (f : A -> result (list Z) encode_error) (l : list A)
  : result (list Z) encode_error :=
  match l with
  | [] => Ok []
  | x :: t => let! a := f x in let! b := concat_results f t in Ok (a ++ b)
  end.

Fixpoint pack (R : ext_registry) (v : value) : result (list Z) encode_error :=
  match v with
  | VNil => Ok [0xC0]
  | VBool b => Ok [if b then 0xC3 else 0xC2]
  | VInt n => pack_int n
  | VFloat32 bits =>
      if in_rng 0 (2 ^ 32 - 1) bits then Ok (0xCA :: be 4 bits) else Err UnencodableType
  | VFloat64 bits =>
      if in_rng 0 (2 ^ 64 - 1) bits then Ok (0xCB :: be 8 bits) else Err UnencodableType
  | VBin d => let! h := bin_header (zlen d) in Ok (h ++ d)
  | VStr d =>
      if utf8_valid d then let! h := str_header (zlen d) in Ok (h ++ d)
      else Err NonUtf8Text
  | VArray l =>
      let! h := array_header (zlen l) in
      let! body := concat_results (pack R) l in
      Ok (h ++ body)
  | VMap l =>
      let! h := map_header (zlen l) in
      let! body := concat_results (fun '(k, x) =>
                     let! a := pack R k in let! b := pack R x in Ok (a ++ b)) l in
      Ok (h ++ body)
  | VExt _ _ =>
      match ext_match R v with
      | Some (c, d) => pack_ext c d
      | None => Err UnencodableType
      end
  end.


(** Legal values (§4.1): integers within the int64/uint64 range of the
    format, float bit patterns of their width, valid UTF-8 text, lengths up
    to 2^32-1 and extension codes in [0,127]. *)
Fixpoint legal (v : value) : bool :=
  match v with
  | VInt n => (- 2 ^ 63 <=? n) && (n <=? 2 ^ 64 - 1)
  | VFloat32 bits => in_rng 0 (2 ^ 32 - 1) bits
  | VFloat64 bits => in_rng 0 (2 ^ 64 - 1) bits
  | VBin d => zlen d <=? 2 ^ 32 - 1
  | VStr d => utf8_valid d && (zlen d <=? 2 ^ 32 - 1)
  | VArray l => (zlen l <=? 2 ^ 32 - 1) && forallb legal l
  | VMap l => (zlen l <=? 2 ^ 32 - 1) && forallb (fun kv => legal kv.1 && legal kv.2) l
  | VExt c d => in_rng 0 127 c && (zlen d <=? 2 ^ 32 - 1)
  | _ => true
  end.

(* ------------------------------------------------------------------ *)
(** ** Decoder *)

(** Format classes; [header_class] is the 256-entry header table. *)
Inductive fmt :=
| FPosFix (n : Z) | FFixMap (n : Z) | FFixArray (n : Z) | FFixStr (n : Z)
| FNil | FReserved | FFalse | FTrue
| FBin (k : nat) | FExt (k : nat) | FFloat32 | FFloat64
| FUInt (k : nat) | FInt (k : nat) | FFixExt (size : Z)
| FStr (k : nat) | FArray (k : nat) | FMap (k : nat)
| FNegFix (n : Z).

Definition header_class (b : Z) : fmt :=
  if b <=? 0x7F then FPosFix b
  else if b <=? 0x8F then FFixMap (b - 0x80)
  else if b <=? 0x9F then FFixArray (b - 0x90)
  else if b <=? 0xBF then FFixStr (b - 0xA0)
  else if b =? 0xC0 then FNil
  else if b =? 0xC1 then FReserved
  else if b =? 0xC2 then FFalse
  else if b =? 0xC3 then FTrue
  else if b =? 0xC4 then FBin 1
  else if b =? 0xC5 then FBin 2
  else if b =? 0xC6 then FBin 4
  else if b =? 0xC7 then FExt 1
  else if b =? 0xC8 then FExt 2
  else if b =? 0xC9 then FExt 4
  else if b =? 0xCA then FFloat32
  else if b =? 0xCB then FFloat64
  else if b =? 0xCC then FUInt 1
  else if b =? 0xCD then FUInt 2
  else if b =? 0xCE then FUInt 4
  else if b =? 0xCF then FUInt 8
  else if b =? 0xD0 then FInt 1
  else if b =? 0xD1 then FInt 2
  else if b =? 0xD2 then FInt 4
  else if b =? 0xD3 then FInt 8
  else if b =? 0xD4 then FFixExt 1
  else if b =? 0xD5 then FFixExt 2
  else if b =? 0xD6 then FFixExt 4
  else if b =? 0xD7 then FFixExt 8
  else if b =? 0xD8 then FFixExt 16
  else if b =? 0xD9 then FStr 1
  else if b =? 0xDA then FStr 2
  else if b =? 0xDB then FStr 4
  else if b =? 0xDC then FArray 2
  else if b =? 0xDD then FArray 4
  else if b =? 0xDE then FMap 2
  else if b =? 0xDF then FMap 4
  else FNegFix (b - 256).

Definition is_ext_tag (b : Z) : bool :=
  match header_class b with FExt _ | FFixExt _ => true | _ => false end.

(** Resolving an extension code.  What a finite mapping does with a code
    it lacks is not given by the spec; it is read here as an unknown
    extension code. *)
Definition ext_resolve (R : ext_registry) (code : Z) (data : list Z)
  : result value decode_error :=
  match R with
  | NoExt => Err UnknownExtensionCode
  | ExtCallable _ u => Ok (u code data)
  | ExtMapping m =>
      match m !! code with
      | Some f => Ok (f data)
      | None => Err UnknownExtensionCode
      end
  end.

Definition unpack_str (len : Z) (bs : list Z) : result (value * list Z) decode_error :=
  let! '(d, r) := read_bytes len bs in
  if utf8_valid d then Ok (VStr d, r) else Err BadUtf8.

(** An extension tag met while no registry is configured fails at once. *)
Definition unpack_ext (R : ext_registry) (len : Z) (bs : list Z)
  : result (value * list Z) decode_error :=
  match R with
  | NoExt => Err UnknownExtensionCode
  | _ =>
      match bs with
      | [] => Err Truncated
      | code :: t =>
          let! '(d, r) := read_bytes len t in
          let! v := ext_resolve R code d in Ok (v, r)
      end
  end.

(** Modelled from the spec: [mpack.Unpacker] (§4.2), absent from src/.
    [fuel] bounds the number of nested calls; [unpack] below gives it
    twice the buffer length, which no well-formed value exhausts. *)
Fixpoint unpack_at (R : ext_registry) (fuel : nat) (bs : list Z) {struct fuel}
  : result (value * list Z) decode_error :=
  match fuel with
  | O => Err Truncated
  | S f =>
      match bs with
      | [] => Err Truncated
      | b :: rest =>
          match header_class b with
          | FPosFix n | FNegFix n => Ok (VInt n, rest)
          | FNil => Ok (VNil, rest)
          | FReserved => Err ReservedTag
          | FFalse => Ok (VBool false, rest)
          | FTrue => Ok (VBool true, rest)
          | FFloat32 => let! '(u, r) := read_be 4 rest in Ok (VFloat32 u, r)
          | FFloat64 => let! '(u, r) := read_be 8 rest in Ok (VFloat64 u, r)
          | FUInt k => let! '(u, r) := read_be k rest in Ok (VInt u, r)
          | FInt k => let! '(u, r) := read_be_signed k rest in Ok (VInt u, r)
          | FBin k =>
              let! '(n, r) := read_be k rest in
              let! '(d, r') := read_bytes n r in Ok (VBin d, r')
          | FFixStr n => unpack_str n rest
          | FStr k => let! '(n, r) := read_be k rest in unpack_str n r
          | FFixExt n => unpack_ext R n rest
          | FExt k =>
              match R with
              | NoExt => Err UnknownExtensionCode
              | _ => let! '(n, r) := read_be k rest in unpack_ext R n r
              end
          | FFixArray n =>
              let! '(l, r) := unpack_array R f n rest in Ok (VArray l, r)
          | FArray k =>
              let! '(n, r) := read_be k rest in
              let! '(l, r') := unpack_array R f n r in Ok (VArray l, r')
          | FFixMap n =>
              let! '(l, r) := unpack_map R f n rest in Ok (VMap l, r)
          | FMap k =>
              let! '(n, r) := read_be k rest in
              let! '(l, r') := unpack_map R f n r in Ok (VMap l, r')
          end
      end
  end
with unpack_array (R : ext_registry) (fuel : nat) (cnt : Z) (bs : list Z) {struct fuel}
  : result (list value * list Z) decode_error :=
  if cnt <=? 0 then Ok ([], bs)
  else
    match fuel with
    | O => Err Truncated
    | S f =>
        let! '(v, r) := unpack_at R f bs in
        let! '(vs, r') := unpack_array R f (cnt - 1) r in Ok (v :: vs, r')
    end
with unpack_map (R : ext_registry) (fuel : nat) (cnt : Z) (bs : list Z) {struct fuel}
  : result (list (value * value) * list Z) decode_error :=
  if cnt <=? 0 then Ok ([], bs)
  else
    match fuel with
    | O => Err Truncated
    | S f =>
        let! '(k, r) := unpack_at R f bs in
        let! '(v, r') := unpack_at R f r in
        let! '(kvs, r'') := unpack_map R f (cnt - 1) r' in Ok ((k, v) :: kvs, r'')
    end.

(** [decode(bytes) -> (Value, bytesConsumed)]. *)
Definition unpack (R : ext_registry) (bs : list Z) : result (value * nat) decode_error :=
  let! '(v, rest) := unpack_at R (2 * length bs) bs in
  Ok (v, (length bs - length rest)%nat).


(* ------------------------------------------------------------------ *)
(** ** The reference packers of [strategies.py] *)

(** Header bytes and field widths of [_do_num], [_do_bin], [_do_str],
    [_do_fixext], [_do_ext], [_do_array] and [_do_map]. *)
Definition uint_fmts : list (nat * Z) := [(1%nat, 0xCC); (2%nat, 0xCD); (4%nat, 0xCE); (8%nat, 0xCF)].
Definition int_fmts : list (nat * Z) := [(1%nat, 0xD0); (2%nat, 0xD1); (4%nat, 0xD2); (8%nat, 0xD3)].
Definition bin_fmts : list (nat * Z) := [(1%nat, 0xC4); (2%nat, 0xC5); (4%nat, 0xC6)].
Definition str_fmts : list (nat * Z) := [(1%nat, 0xD9); (2%nat, 0xDA); (4%nat, 0xDB)].
Definition fixext_fmts : list (Z * Z) := [(1, 0xD4); (2, 0xD5); (4, 0xD6); (8, 0xD7); (16, 0xD8)].
Definition ext_fmts : list (nat * Z) := [(1%nat, 0xC7); (2%nat, 0xC8); (4%nat, 0xC9)].
Definition array_fmts : list (nat * Z) := [(2%nat, 0xDC); (4%nat, 0xDD)].
Definition map_fmts : list (nat * Z) := [(2%nat, 0xDE); (4%nat, 0xDF)].

(** [numpy.iinfo(dtype).max] of a [k]-byte unsigned dtype. *)
Definition umax (k : nat) : Z := 256 ^ Z.of_nat k - 1.

(** Python's [len] of a [str], given its UTF-8 bytes: the number of
    bytes that are not continuation bytes. *)
Definition py_str_len (d : list Z) : Z := zlen (filter (fun b => negb (cont b)) d).

Section Packers.
  (** [str_fits k d]: the size bound [str8/16/32] put on a payload [d]
      with a [k]-byte length field. *)
Variable str_fits : nat -> list Z -> Prop.

Inductive enc_rel : value -> list Z -> Prop :=
  | ER_nil : enc_rel VNil [0xC0]
  | ER_boolean b : enc_rel (VBool b) [0xC2 + Z.b2z b]
  | ER_positive_fixnum n : 0 <= n <= 127 -> enc_rel (VInt n) [n]
  | ER_negative_fixnum n : -32 <= n <= -1 -> enc_rel (VInt n) [Z.lor 0xE0 (256 + n)]
  | ER_uint k hdr n : In (k, hdr) uint_fmts -> 0 <= n <= umax k ->
      enc_rel (VInt n) (hdr :: be k n)
  | ER_int k hdr n : In (k, hdr) int_fmts ->
      - 2 ^ (8 * Z.of_nat k - 1) <= n < 2 ^ (8 * Z.of_nat k - 1) ->
      enc_rel (VInt n) (hdr :: be k n)
  | ER_float32 bits : 0 <= bits <= umax 4 -> enc_rel (VFloat32 bits) (0xCA :: be 4 bits)
  | ER_float64 bits : 0 <= bits <= umax 8 -> enc_rel (VFloat64 bits) (0xCB :: be 8 bits)
  | ER_bin k hdr d : In (k, hdr) bin_fmts -> zlen d <= umax k ->
      enc_rel (VBin d) (hdr :: be k (zlen d) ++ d)
  | ER_fixstr d : utf8_valid d = true -> zlen d <= 31 ->
      enc_rel (VStr d) (Z.lor 0xA0 (zlen d) :: d)
  | ER_str k hdr d : In (k, hdr) str_fmts -> utf8_valid d = true -> str_fits k d ->
      enc_rel (VStr d) (hdr :: be k (zlen d) ++ d)
  | ER_fixext size hdr c d : In (size, hdr) fixext_fmts -> 0 <= c <= 127 ->
      zlen d = size ->
      enc_rel (VExt c d) (hdr :: c :: d)
  | ER_ext k hdr c d : In (k, hdr) ext_fmts -> 0 <= c <= 127 ->
      zlen d <= umax k ->
      enc_rel (VExt c d) (hdr :: be k (zlen d) ++ c :: d)
  | ER_fixarray l bs : enc_items l bs -> zlen l <= 15 ->
      enc_rel (VArray l) (Z.lor 0x90 (zlen l) :: bs)
  | ER_array k hdr l bs : In (k, hdr) array_fmts -> enc_items l bs -> zlen l <= umax k ->
      enc_rel (VArray l) (hdr :: be k (zlen l) ++ bs)
  | ER_fixmap l bs : enc_pairs l bs -> zlen l <= 15 ->
      enc_rel (VMap l) (Z.lor 0x80 (zlen l) :: bs)
  | ER_map k hdr l bs : In (k, hdr) map_fmts -> enc_pairs l bs -> zlen l <= umax k ->
      enc_rel (VMap l) (hdr :: be k (zlen l) ++ bs)
  (** [_concat_elements]: packed elements one after the other. *)
with enc_items : list value -> list Z -> Prop :=
  | EI_nil : enc_items [] []
  | EI_cons x t a b : enc_rel x a -> enc_items t b -> enc_items (x :: t) (a ++ b)
  (** [_concat_items]: each key immediately followed by its value. *)
with enc_pairs : list (value * value) -> list Z -> Prop :=
  | EP_nil : enc_pairs [] []
  | EP_cons k x t a b c : enc_rel k a -> enc_rel x b -> enc_pairs t c ->
      enc_pairs ((k, x) :: t) (a ++ b ++ c).
End Packers.

(** The strategies as written: [_do_str] bounds the payload through
    [payloads_text(hard_max_size=...)], i.e. by its number of characters,
    and [_num_tobytes] writes the byte length with numpy's wrap-around
    conversion (numpy 1.x). *)
Definition ref_enc : value -> list Z -> Prop :=
  enc_rel (fun k d => py_str_len d <= umax k).

(** The wire table of the format: a [str8/16/32] byte length fits its
    length field. *)
Definition wire_enc : value -> list Z -> Prop :=
  enc_rel (fun k d => zlen d <= umax k).

Scheme enc_rel_mut := Induction for enc_rel Sort Prop
  with enc_items_mut := Induction for enc_items Sort Prop
  with enc_pairs_mut := Induction for enc_pairs Sort Prop.

Fixpoint ext_free (v : value) : bool :=
  match v with
  | VArray l => forallb ext_free l
  | VMap l => forallb (fun kv => ext_free kv.1 && ext_free kv.2) l
  | VExt _ _ => false
  | _ => true
  end.

(* ------------------------------------------------------------------ *)
(** ** RPC session *)

(** Modelled from the spec: [mpack.Session] (§3, §4.4), absent from
    src/.  The pending table maps an in-flight msgid to the caller's
    opaque data (an entry is present exactly while it is awaited). *)
Section SessionDefs.
Context {D : Type}.

Record session := mk_session {
    pending : gmap Z D;
    next_id : Z;
    registry : ext_registry
  }.

Inductive session_error :=
  | SDecode (e : decode_error)
  | SEncode (e : encode_error)
  | ProtocolError
  | UnknownResponseId
  | IdCollision.

Inductive received :=
  | RRequest (method : list Z) (params : list value) (msgid : Z)
  | RNotification (method : list Z) (params : list value)
  | RResponse (error result : value) (data : D).

Definition is_u32 (n : Z) : bool := in_rng 0 (2 ^ 32 - 1) n.

  (** The id counter wraps modulo 2^32 and skips ids still pending. *)
Fixpoint find_free (fuel : nat) (pend : gmap Z D) (c : Z) : option Z :=
    match fuel with
    | O => None
    | S f =>
        match pend !! c with
        | Some _ => find_free f pend ((c + 1) mod 2 ^ 32)
        | None => Some c
        end
    end.

Definition enc_err {A} (r : result A encode_error) : result A session_error :=
    match r with Ok a => Ok a | Err e => Err (SEncode e) end.
Definition dec_err {A} (r : result A decode_error) : result A session_error :=
    match r with Ok a => Ok a | Err e => Err (SDecode e) end.

Definition request (s : session) (method : list Z) (params : list value) (data : D)
    : result (list Z * session) session_error :=
    match find_free (S (size (pending s))) (pending s) (next_id s) with
    | None => Err IdCollision
    | Some id =>
        let! bs := enc_err (pack (registry s) (VArray [VInt 0; VInt id; VStr method; VArray params])) in
        Ok (bs, mk_session (<[id := data]> (pending s)) ((id + 1) mod 2 ^ 32) (registry s))
    end.

Definition notify (s : session) (method : list Z) (params : list value)
    : result (list Z) session_error :=
    enc_err (pack (registry s) (VArray [VInt 2; VStr method; VArray params])).

Definition reply (s : session) (msgid : Z) (v : value) (is_error : bool)
    : result (list Z) session_error :=
    enc_err (pack (registry s)
      (VArray [VInt 1; VInt msgid; if is_error then v else VNil; if is_error then VNil else v])).

Definition is_nil (v : value) : bool := match v with VNil => true | _ => false end.

  (** Exactly one of error/result is non-nil. *)
Definition response_shape_ok (e r : value) : bool := xorb (is_nil e) (is_nil r).

Definition receive (s : session) (bs : list Z)
    : result (nat * received * session) session_error :=
    let! '(v, n) := dec_err (unpack (registry s) bs) in
    match v with
    | VArray (VInt t :: tail) =>
        if t =? 0 then
          match tail with
          | [VInt id; VStr m; VArray p] =>
              if is_u32 id then Ok (n, RRequest m p id, s) else Err ProtocolError
          | _ => Err ProtocolError
          end
        else if t =? 1 then
          match tail with
          | [VInt id; e; r] =>
              if is_u32 id && response_shape_ok e r then
                match pending s !! id with
                | Some d =>
                    Ok (n, RResponse e r d,
                        mk_session (delete id (pending s)) (next_id s) (registry s))
                | None => Err UnknownResponseId
                end
              else Err ProtocolError
          | _ => Err ProtocolError
          end
        else if t =? 2 then
          match tail with
          | [VStr m; VArray p] => Ok (n, RNotification m p, s)
          | _ => Err ProtocolError
          end
        else Err ProtocolError
    | _ => Err ProtocolError
    end.

Definition new_session (R : ext_registry) : session := mk_session ∅ 0 R.
End SessionDefs.
Arguments session : clear implicits.
Arguments received : clear implicits.

(* ------------------------------------------------------------------ *)
(** ** [strategies.msg] *)

Inductive msg_kind := MRequest | MResponse | MNotification.

(** [msg(types, msg_id=uint32(), method=all_str(), params=all_array(...),
    has_error=booleans(), errors=everything(), results=everything())]:
    the drawn tail (without the type name) and the packed [fixarray]. *)
Inductive msg_gen : msg_kind -> list value -> list Z -> Prop :=
| MG_request id m p bm bp :
    0 <= id <= umax 4 -> ref_enc (VStr m) bm -> ref_enc (VArray p) bp ->
    ext_free (VArray p) = true ->
    msg_gen MRequest [VInt id; VStr m; VArray p]
      (Z.lor 0x90 4 :: 0 :: (0xCE :: be 4 id) ++ bm ++ bp)
| MG_response_error id e be_ :
    0 <= id <= umax 4 -> ref_enc e be_ -> ext_free e = true ->
    msg_gen MResponse [VInt id; e; VNil]
      (Z.lor 0x90 4 :: 1 :: (0xCE :: be 4 id) ++ be_ ++ [0xC0])
| MG_response_result id r br :
    0 <= id <= umax 4 -> ref_enc r br -> ext_free r = true ->
    msg_gen MResponse [VInt id; VNil; r]
      (Z.lor 0x90 4 :: 1 :: (0xCE :: be 4 id) ++ [0xC0] ++ br)
| MG_notification m p bm bp :
    ref_enc (VStr m) bm -> ref_enc (VArray p) bp -> ext_free (VArray p) = true ->
    msg_gen MNotification [VStr m; VArray p]
      (Z.lor 0x90 3 :: 2 :: bm ++ bp).

(* ------------------------------------------------------------------ *)
(** ** [strategies._Nan] and Python's [==] / [!=] *)

Module NanEq.
Inductive fwidth := F16 | F32 | F64.

  (** Python objects met by the test comparisons: the [nan] sentinel,
      numpy / Python floats (width and IEEE-754 bits), [int], [bool],
      [None], [bytes] and [str]. *)
Inductive pyobj :=
  | PNan
  | PFloat (w : fwidth) (bits : Z)
  | PInt (n : Z)
  | PBool (b : bool)
  | PNone
  | PBytes (b : list Z)
  | PStr (s : list Z).

  (** [numpy.dtype(type(other)).kind]. *)
Inductive kind := KFloat | KInt | KBool | KObject | KBytes | KUnicode.

Definition np_kind (o : pyobj) : kind :=
    match o with
    | PFloat _ _ => KFloat
    | PInt _ => KInt
    | PBool _ => KBool
    | PBytes _ => KBytes
    | PStr _ => KUnicode
    | PNan | PNone => KObject
    end.

Definition is_float_kind (o : pyobj) : bool :=
    match np_kind o with KFloat => true | _ => false end.

  (** Exponent and fraction widths. *)
Definition fparams (w : fwidth) : Z * Z :=
    match w with F16 => (5, 10) | F32 => (8, 23) | F64 => (11, 52) end.

Inductive fclass := CNaN | CInf (neg : bool) | CFinite (num exp2 : Z).

  (** IEEE-754 decoding of a bit pattern; a finite value is [num * 2^exp2]. *)
Definition classify (w : fwidth) (bits : Z) : fclass :=
    let '(eb, mb) := fparams w in
    let neg := Z.testbit bits (eb + mb) in
    let e := Z.land (Z.shiftr bits mb) (2 ^ eb - 1) in
    let frac := Z.land bits (2 ^ mb - 1) in
    let bias := 2 ^ (eb - 1) - 1 in
    let sgn := fun x => if neg then - x else x in
    if e =? 2 ^ eb - 1 then (if frac =? 0 then CInf neg else CNaN)
    else if e =? 0 then CFinite (sgn frac) (1 - bias - mb)
    else CFinite (sgn (frac + 2 ^ mb)) (e - bias - mb).

  (** [numpy.isnan]. *)
Definition isnan (w : fwidth) (bits : Z) : bool :=
    match classify w bits with CNaN => true | _ => false end.

Definition num_eq (a ea b eb : Z) : bool :=
    let m := Z.min ea eb in a * 2 ^ (ea - m) =? b * 2 ^ (eb - m).

  (** Numeric [==] between two classified numbers (an [int] is [n * 2^0]). *)
Definition class_eq (x y : fclass) : bool :=
    match x, y with
    | CNaN, _ | _, CNaN => false
    | CInf s, CInf s' => Bool.eqb s s'
    | CFinite a ea, CFinite b eb => num_eq a ea b eb
    | _, _ => false
    end.

Definition num_class (o : pyobj) : option fclass :=
    match o with
    | PFloat w b => Some (classify w b)
    | PInt n => Some (CFinite n 0)
    | PBool b => Some (CFinite (Z.b2z b) 0)
    | _ => None
    end.

  (** Result of a rich-comparison method. *)
Inductive cmp := NotImplemented | PyBool (b : bool).

  (** [__eq__] of the builtin types: numbers compare by value, [None],
      [bytes] and [str] with their own kind; anything else (the sentinel
      in particular) is [NotImplemented]. *)
Definition builtin_eq (x y : pyobj) : cmp :=
    match num_class x, num_class y with
    | Some cx, Some cy => PyBool (class_eq cx cy)
    | _, _ =>
        match x, y with
        | PNone, PNone => PyBool true
        | PBytes a, PBytes b => PyBool (bool_decide (a = b))
        | PStr a, PStr b => PyBool (bool_decide (a = b))
        | _, _ => NotImplemented
        end
    end.

  (** The default [__ne__] inverts [__eq__]. *)
Definition builtin_ne (x y : pyobj) : cmp :=
    match builtin_eq x y with PyBool b => PyBool (negb b) | NotImplemented => NotImplemented end.

  (** [_Nan.__eq__] and [_Nan.__ne__]. *)
Definition nan_eq (other : pyobj) : cmp :=
    if is_float_kind other then
      PyBool (match other with PFloat w b => isnan w b | _ => false end)
    else NotImplemented.

Definition nan_ne (other : pyobj) : cmp :=
    if is_float_kind other then
      PyBool (match other with PFloat w b => negb (isnan w b) | _ => true end)
    else NotImplemented.

Definition eq_method (x y : pyobj) : cmp :=
    match x with PNan => nan_eq y | _ => builtin_eq x y end.
Definition ne_method (x y : pyobj) : cmp :=
    match x with PNan => nan_ne y | _ => builtin_ne x y end.

  (** [x is y], reached only for operands that no [__eq__] handles: those
      are distinct objects unless both are the sentinel singleton. *)
Definition is_same (x y : pyobj) : bool :=
    match x, y with PNan, PNan => true | _, _ => false end.

  (** [x == y]: [x.__eq__(y)], then the reflected [y.__eq__(x)], then
      identity. *)
Definition py_eq (x y : pyobj) : bool :=
    match eq_method x y with
    | PyBool b => b
    | NotImplemented =>
        match eq_method y x with
        | PyBool b => b
        | NotImplemented => is_same x y
        end
    end.

  (** [x != y], with [not (x is y)] as the last resort. *)
Definition py_ne (x y : pyobj) : bool :=
    match ne_method x y with
    | PyBool b => b
    | NotImplemented =>
        match ne_method y x with
        | PyBool b => b
        | NotImplemented => negb (is_same x y)
        end
    end.
End NanEq.

(* ------------------------------------------------------------------ *)
(** ** [compat.bfmt] *)

Module Bfmt.
  (** An argument of [bfmt]: an [int] or a bytes-like object. *)
Inductive fmt_arg := AInt (n : Z) | ABytes (b : list Z).

Definition pct : Z := 37.   (* '%' *)
Definition chr_c : Z := 99. (* 'c' *)
Definition chr_s : Z := 115. (* 's' *)
Definition chr_b : Z := 98. (* 'b' *)

  (** The fallback [bfmt] (Python 3.0 to 3.4): scan for ['%'], copy the
      bytes before it, then [%c] appends one byte and anything else must be
      [%s] and extends by a bytes argument.  [None] is a raised exception
      ([IndexError] on a trailing ['%'], [StopIteration] when arguments run
      out, [ValueError] / [TypeError] from [append] and [+=],
      [AssertionError] on another directive).  Arguments left over are
      ignored. *)
Fixpoint bfmt_manual (B : list Z) (args : list fmt_arg) : option (list Z) :=
    match B with
    | [] => Some []
    | ch :: t =>
        if ch =? pct then
          match t with
          | [] => None
          | spec :: t' =>
              if spec =? chr_c then
                match args with
                | AInt n :: args' =>
                    if in_rng 0 255 n then (fun r => n :: r) <$> bfmt_manual t' args' else None
                | _ => None
                end
              else if spec =? chr_s then
                match args with
                | ABytes b :: args' => (fun r => b ++ r) <$> bfmt_manual t' args'
                | _ => None
                end
              else None
          end
        else (fun r => ch :: r) <$> bfmt_manual t args
    end.

  (** [B % args] on [bytes] (PEP 461), for the conversions [%%], [%c],
      [%s] and [%b]; a [%c] takes an [int] in [range(256)] or a bytes
      object of length 1.  Flags, widths and the other conversions are
      outside this model and give [None], as do the errors.  Returns the
      output and the unused arguments. *)
Fixpoint native_go (B : list Z) (args : list fmt_arg) : option (list Z * list fmt_arg) :=
    match B with
    | [] => Some ([], args)
    | ch :: t =>
        if ch =? pct then
          match t with
          | [] => None
          | spec :: t' =>
              if spec =? pct then
                (fun '(r, a) => (pct :: r, a)) <$> native_go t' args
              else if spec =? chr_c then
                match args with
                | AInt n :: args' =>
                    if in_rng 0 255 n then (fun '(r, a) => (n :: r, a)) <$> native_go t' args'
                    else None
                | ABytes [b] :: args' => (fun '(r, a) => (b :: r, a)) <$> native_go t' args'
                | _ => None
                end
              else if (spec =? chr_s) || (spec =? chr_b) then
                match args with
                | ABytes b :: args' => (fun '(r, a) => (b ++ r, a)) <$> native_go t' args'
                | _ => None
                end
              else None
          end
        else (fun '(r, a) => (ch :: r, a)) <$> native_go t args
    end.

  (** "not all arguments converted" when arguments are left over. *)
Definition bfmt_native (B : list Z) (args : list fmt_arg) : option (list Z) :=
    match native_go B args with
    | Some (out, []) => Some out
    | _ => None
    end.

  (** Format strings whose only directives are [%c] and [%s]. *)
Fixpoint only_c_s (B : list Z) : bool :=
    match B with
    | [] => true
    | ch :: t =>
        if ch =? pct then
          match t with
          | spec :: t' => ((spec =? chr_c) || (spec =? chr_s)) && only_c_s t'
          | [] => false
          end
        else only_c_s t
    end.

  (** The directives of such a format, in order ([true] for [%c]). *)
Fixpoint directives (B : list Z) : list bool :=
    match B with
    | [] => []
    | ch :: t =>
        if ch =? pct then
          match t with
          | spec :: t' => (spec =? chr_c) :: directives t'
          | [] => []
          end
        else directives t
    end.

  (** One argument per directive: an [int] for [%c], bytes for [%s]. *)
Fixpoint args_fit (ds : list bool) (args : list fmt_arg) : Prop :=
    match ds, args with
    | [], [] => True
    | true :: ds', AInt _ :: args' => args_fit ds' args'
    | false :: ds', ABytes _ :: args' => args_fit ds' args'
    | _, _ => False
    end.
End Bfmt.

(* ------------------------------------------------------------------ *)
(** ** [strategies._limit_size] *)

(** The exceptions [_limit_size] raises. *)
Inductive size_error := SizeValueError | SizeAssertionError.

(** [a > b] for two sizes of which either may be [None]; the source only
    compares sizes it has checked to be given. *)
Definition opt_gt (a b : option Z) : bool :=
  match a, b with Some x, Some y => y <? x | _, _ => false end.

(** [_limit_size(min_size, average_size, max_size, hard_max_size=...,
    hard_size=..., default_average_size=...)], returning the triple
    [(min_size, average_size, max_size)]. *)
Definition limit_size (min_size average_size max_size : option Z)
    (hard_max_size hard_size default_average_size : option Z)
    : result (option Z * option Z * option Z) size_error :=
  if opt_gt min_size max_size then Err SizeValueError else
  let! average_size :=
    match average_size with
    | Some a =>
        if opt_gt (Some a) max_size then Err SizeValueError
        else if opt_gt min_size (Some a) then Err SizeValueError
        else Ok (Some a)
    | None => Ok default_average_size
    end in
  let! '(min_size, max_size) :=
    match hard_size with
    | Some h =>
        match hard_max_size with
        | None => Ok (Some h, h)
        | Some _ => Err SizeAssertionError
        end
    | None =>
        match hard_max_size with
        | None => Err SizeAssertionError
        | Some hm =>
            let max_size := match max_size with
                            | Some m => if hm <? m then hm else m
                            | None => hm
                            end in
            let min_size := match min_size with
                            | Some n => Some (if max_size <? n then max_size else n)
                            | None => None
                            end in
            Ok (min_size, max_size)
        end
    end in
  let average_size :=
    match min_size, average_size with
    | Some n, Some a => if (n <=? a) && (a <=? max_size) then Some a else None
    | _, _ => average_size
    end in
  Ok (min_size, average_size, Some max_size).

(* ------------------------------------------------------------------ *)
(** ** [strategies.ext_classes], [ext_pack] and [ext_unpack] *)

(** Python's [l[i]]: a negative index counts from the end; [None] is the
    [IndexError]. *)
Definition py_index {A} (l : list A) (i : Z) : option A :=
  if (0 <=? i) && (i <? zlen l) then l !! Z.to_nat i
  else if (- zlen l <=? i) && (i <? 0) then l !! Z.to_nat (zlen l + i)
  else None.

(** [ext_classes]: the 128 classes [_Ext0] ... [_Ext127], each given by
    its class attribute [code]. *)
Definition ext_classes : list Z := map Z.of_nat (seq 0 128).

(** An instance of one of [ext_classes]: its class's [code] and the
    [data] it was built with. *)
Record ext_obj := mk_ext { ext_code : Z; ext_data : list Z }.

Definition ext_pack (ext : ext_obj) : Z * list Z := (ext_code ext, ext_data ext).

(** [ext_classes[code](data)]; [None] is the [IndexError]. *)
Definition ext_unpack (code : Z) (data : list Z) : option ext_obj :=
  (fun cls => mk_ext cls data) <$> py_index ext_classes code.

(* ------------------------------------------------------------------ *)
(** ** [strategies._float_postpack] *)

(** [nan if numpy.isnan(v) else v]. *)
Definition float_postpack (w : NanEq.fwidth) (bits : Z) : NanEq.pyobj :=
  if NanEq.isnan w bits then NanEq.PNan else NanEq.PFloat w bits.

(* ------------------------------------------------------------------ *)
(** ** The scalar strategies of [binding/python/strategies.py] *)

(** Each [pack] of a [_scalar_st], on a value drawn from its [source].
    [b"..." % (...)] is [Bfmt.bfmt_native]; [None] is a raised exception. *)
Module Binding.

Definition nil_pack : list Z := [0xC0].

Definition bool_pack (v : bool) : list Z := if v then [0xC3] else [0xC2].

Definition positive_fixnum_pack (v : Z) : option (list Z) :=
  Bfmt.bfmt_native [Bfmt.pct; Bfmt.chr_c] [Bfmt.AInt v].

(** [b"%c" % (v + 256 | 0xe0)]: [+] binds tighter than [|]. *)
Definition negative_fixnum_pack (v : Z) : option (list Z) :=
  Bfmt.bfmt_native [Bfmt.pct; Bfmt.chr_c] [Bfmt.AInt (Z.lor (v + 256) 0xE0)].

(** [_num_st(firstbyte, dtype)]: [v.tobytes()] of a 0-d array of a
    [k]-byte big-endian dtype is [be k v] (the two's complement for a
    signed dtype, the IEEE-754 bits for a float one). *)
Definition num_st_pack (firstbyte : Z) (k : nat) (v : Z) : option (list Z) :=
  Bfmt.bfmt_native [Bfmt.pct; Bfmt.chr_c; Bfmt.pct; Bfmt.chr_s]
    [Bfmt.AInt firstbyte; Bfmt.ABytes (be k v)].

(** [_num_st(0xcc + i, ">u%s" % 2**i) for i in range(4)]. *)
Definition uint_pack (i : nat) : Z -> option (list Z) :=
  num_st_pack (0xCC + Z.of_nat i) (2 ^ i)%nat.

(** [_num_st(0xd0 + i, ">i%s" % 2**i) for i in range(4)]. *)
Definition int_pack (i : nat) : Z -> option (list Z) :=
  num_st_pack (0xD0 + Z.of_nat i) (2 ^ i)%nat.

(** [_num_st(0xca + i, ">f%s" % 2**i) for i in range(2, 4)], on the bits
    of the drawn float. *)
Definition float_pack (i : nat) : Z -> option (list Z) :=
  num_st_pack (0xCA + Z.of_nat i) (2 ^ i)%nat.

(** [numpy.array(v, ">u%d" % nbytes).tobytes()]. *)
Definition int_tobytes (v : Z) (nbytes : nat) : list Z := be nbytes v.

(** [_pack_bin(firstbyte, nbytes_len)]. *)
Definition pack_bin (firstbyte : Z) (nbytes_len : nat) (v : list Z) : option (list Z) :=
  Bfmt.bfmt_native [Bfmt.pct; Bfmt.chr_c; Bfmt.pct; Bfmt.chr_s; Bfmt.pct; Bfmt.chr_s]
    [Bfmt.AInt firstbyte; Bfmt.ABytes (int_tobytes (zlen v) nbytes_len); Bfmt.ABytes v].

(** [bin8, bin16, bin32]: [_pack_bin(0xc4 + i, 2**i)]. *)
Definition bin_pack (i : nat) : list Z -> option (list Z) :=
  pack_bin (0xC4 + Z.of_nat i) (2 ^ i)%nat.

(** The size bound [2**(8 * 2**i) - 1] of the sources of [bin8/16/32]
    and [str8/16/32]. *)
Definition src_max (i : nat) : Z := 2 ^ (8 * 2 ^ Z.of_nat i) - 1.

(** [_text(max_size)]'s filter, on the UTF-8 bytes of the text. *)
Definition text_ok (max_size : Z) (d : list Z) : bool := zlen d <=? max_size.

(** [fixstr]'s pack, on the UTF-8 bytes [d] of the text. *)
Definition fixstr_pack (d : list Z) : option (list Z) :=
  Bfmt.bfmt_native [Bfmt.pct; Bfmt.chr_c; Bfmt.pct; Bfmt.chr_s]
    [Bfmt.AInt (Z.lor 0xA0 (zlen d)); Bfmt.ABytes d].

(** [_pack_str(i)], on the UTF-8 bytes [d] of the text. *)
Definition pack_str (i : nat) (d : list Z) : option (list Z) :=
  pack_bin (0xD9 + Z.of_nat i) (2 ^ i)%nat d.
End Binding.

(* ------------------------------------------------------------------ *)
(** ** Draws of [strategies.everything] and [strategies.msg] *)

(** Every text inside the value is ASCII. *)
Fixpoint text_ascii (v : value) : bool :=
  match v with
  | VStr d => forallb (fun b => b <? 0x80) d
  | VArray l => forallb text_ascii l
  | VMap l => forallb (fun kv => text_ascii kv.1 && text_ascii kv.2) l
  | _ => true
  end.

(** [_msg_types.index(t)]. *)
Definition msg_type_index (k : msg_kind) : Z :=
  match k with MRequest => 0 | MResponse => 1 | MNotification => 2 end.

(* ------------------------------------------------------------------ *)
(** ** Proof helpers *)

(** An upper bound on the decoder fuel a value needs: one unit per
    [unpack_at] call and one per element or pair. *)
Fixpoint need (v : value) : nat :=
  match v with
  | VArray l => S (sum_list_with (fun x => S (need x)) l)
  | VMap l => S (sum_list_with (fun kv => S (need kv.1 + need kv.2)) l)
  | _ => 1%nat
  end.

(** 128 times U+00E9, in UTF-8: 128 characters, 256 bytes. *)
Definition e_acute_128 : list Z := concat (repeat [0xC3; 0xA9] 128).

(* ================================================================== *)
(** * Properties *)

(** ** Sanity checks on concrete buffers *)

Example pack_100 : pack NoExt (VInt 100) = Ok [100].
Proof. reflexivity. Qed.

Example pack_nones : pack NoExt (VArray [VNil; VNil]) = Ok [0x92; 0xC0; 0xC0].
Proof. reflexivity. Qed.

Example unpack_uint8_5 : unpack NoExt [0xCC; 5] = Ok (VInt 5, 2%nat).
Proof. reflexivity. Qed.

Example unpack_c1 : unpack NoExt [0xC1] = Err ReservedTag.
Proof. reflexivity. Qed.

Example unpack_nested : unpack ext_std [0x92; 0x91; 0xC0; 0xD4; 3; 9]
  = Ok (VArray [VArray [VNil]; VExt 3 [9]], 6%nat).
Proof. reflexivity. Qed.
Example pack_m33 : pack NoExt (VInt (-33)) = Ok [0xD0; 223].
Proof. reflexivity. Qed.
Example unpack_neg : unpack NoExt [0xD0; 223; 0xC0] = Ok (VInt (-33), 2%nat).
Proof. reflexivity. Qed.
Example unpack_trunc : unpack NoExt [0xCD; 1] = Err Truncated.
Proof. reflexivity. Qed.

Example str8_wrap : unpack NoExt (0xD9 :: be 1 (zlen e_acute_128) ++ e_acute_128) = Ok (VStr [], 2%nat).
Proof. vm_compute. reflexivity. Qed.
Example str8_wrap_len : py_str_len e_acute_128 = 128 /\ zlen e_acute_128 = 256 /\ utf8_valid e_acute_128 = true.
Proof. vm_compute. auto. Qed.
Example bfmt_c_bytes : Bfmt.bfmt_native [37; 99] [Bfmt.ABytes [65]] = Some [65] /\ Bfmt.bfmt_manual [37; 99] [Bfmt.ABytes [65]] = None.
Proof. split; reflexivity. Qed.
Example nan_f32 : NanEq.isnan NanEq.F32 0x7FC00000 = true /\ NanEq.isnan NanEq.F32 0x7F800001 = true /\ NanEq.isnan NanEq.F32 0x7F800000 = false
  /\ NanEq.py_eq NanEq.PNan (NanEq.PFloat NanEq.F64 0x7FF8000000000000) = true
  /\ NanEq.py_eq (NanEq.PFloat NanEq.F32 0x3F800000) (NanEq.PInt 1) = true
  /\ NanEq.py_eq (NanEq.PFloat NanEq.F32 0x7FC00000) (NanEq.PFloat NanEq.F32 0x7FC00000) = false
  /\ NanEq.py_eq NanEq.PNan NanEq.PNan = true /\ NanEq.py_eq NanEq.PNan (NanEq.PInt 0) = false.
Proof. vm_compute. repeat split. Qed.

(* ------------------------------------------------------------------ *)
(** ** Big-endian fields *)

Lemma be_length k n : length (be k n) = k.
Proof. induction k; simpl; auto. Qed.

Lemma read_be_app k n rest :
  read_be k (be k n ++ rest) = Ok (n mod 256 ^ Z.of_nat k, rest).
Proof.
  induction k as [|k IH]; simpl.
  - rewrite Z.mod_1_r. reflexivity.
  - rewrite IH. simpl. do 3 f_equal.
    rewrite Nat2Z.inj_succ, Z.pow_succ_r by lia.
    rewrite (Z.mul_comm 256), Z.rem_mul_r by lia. ring.
Qed.

Lemma read_be_small k n rest :
  0 <= n <= umax k -> read_be k (be k n ++ rest) = Ok (n, rest).
Proof.
  unfold umax. intros Hn. rewrite read_be_app, Z.mod_small; [reflexivity | lia].
Qed.

Lemma pow256 k : 256 ^ Z.of_nat k = 2 ^ (8 * Z.of_nat k).
Proof. rewrite Z.pow_mul_r by lia. reflexivity. Qed.

Lemma read_be_signed_app k n rest :
  (1 <= k)%nat -> - 2 ^ (8 * Z.of_nat k - 1) <= n < 2 ^ (8 * Z.of_nat k - 1) ->
  read_be_signed k (be k n ++ rest) = Ok (n, rest).
Proof.
  intros Hk Hn. unfold read_be_signed. rewrite read_be_app. simpl.
  assert (H2 : 2 ^ (8 * Z.of_nat k) = 2 * 2 ^ (8 * Z.of_nat k - 1)).
  { rewrite <- Z.pow_succ_r by lia. f_equal. lia. }
  rewrite pow256, H2. do 2 f_equal.
  destruct (Z.leb_spec0 0 n).
  - rewrite Z.mod_small by lia.
    destruct (Z.leb_spec0 (2 ^ (8 * Z.of_nat k - 1)) n); lia.
  - assert (Hm : n mod (2 * 2 ^ (8 * Z.of_nat k - 1)) = n + 2 * 2 ^ (8 * Z.of_nat k - 1)).
    { rewrite <- (Z.mod_small (n + 2 * 2 ^ (8 * Z.of_nat k - 1)) (2 * 2 ^ (8 * Z.of_nat k - 1))) by lia.
      rewrite <- Zplus_mod_idemp_r, Z_mod_same_full, Z.add_0_r. reflexivity. }
    rewrite Hm. destruct (Z.leb_spec0 (2 ^ (8 * Z.of_nat k - 1)) (n + 2 * 2 ^ (8 * Z.of_nat k - 1))); lia.
Qed.

Lemma read_bytes_app d rest : read_bytes (zlen d) (d ++ rest) = Ok (d, rest).
Proof.
  unfold read_bytes, zlen. rewrite length_app.
  destruct (Z.ltb_spec0 (Z.of_nat (length d + length rest)) (Z.of_nat (length d))); [lia|].
  rewrite Nat2Z.id, take_app_length, drop_app_length. reflexivity.
Qed.

(* ------------------------------------------------------------------ *)
(** ** Header bytes *)

Lemma nat_cases (P : Z -> Prop) (n : Z) (m : nat) :
  0 <= n <= Z.of_nat m -> Forall (fun i => P (Z.of_nat i)) (seq 0 (S m)) -> P n.
Proof.
  intros Hn Hall. rewrite Forall_forall in Hall.
  rewrite <- (Z2Nat.id n) by lia. apply Hall.
  apply list_elem_of_In, in_seq. lia.
Qed.

Lemma lor_A0 n : 0 <= n <= 31 -> Z.lor 0xA0 n = 0xA0 + n.
Proof.
  intros H. apply (nat_cases (fun i => Z.lor 0xA0 i = 0xA0 + i) _ 31); [lia | repeat constructor].
Qed.
Lemma lor_90 n : 0 <= n <= 15 -> Z.lor 0x90 n = 0x90 + n.
Proof.
  intros H. apply (nat_cases (fun i => Z.lor 0x90 i = 0x90 + i) _ 15); [lia | repeat constructor].
Qed.
Lemma lor_80 n : 0 <= n <= 15 -> Z.lor 0x80 n = 0x80 + n.
Proof.
  intros H. apply (nat_cases (fun i => Z.lor 0x80 i = 0x80 + i) _ 15); [lia | repeat constructor].
Qed.
Lemma lor_E0 n : -32 <= n <= -1 -> Z.lor 0xE0 (256 + n) = 256 + n.
Proof.
  intros H. replace (256 + n) with (0xE0 + (n + 32)) by lia.
  apply (nat_cases (fun i => Z.lor 0xE0 (0xE0 + i) = 0xE0 + i) _ 31); [lia | repeat constructor].
Qed.

Ltac zcase :=
  match goal with
  | |- context [?a <=? ?b] => destruct (Z.leb_spec0 a b)
  | |- context [?a <? ?b] => destruct (Z.ltb_spec0 a b)
  | |- context [?a =? ?b] => destruct (Z.eqb_spec a b)
  end; simpl.

Lemma header_posfix n : 0 <= n <= 127 -> header_class n = FPosFix n.
Proof. intros H. unfold header_class. repeat (zcase; try lia). reflexivity. Qed.

Lemma header_negfix n : -32 <= n <= -1 -> header_class (Z.lor 0xE0 (256 + n)) = FNegFix n.
Proof.
  intros H. rewrite lor_E0 by lia. unfold header_class.
  repeat (zcase; try lia); try reflexivity; f_equal; lia.
Qed.

Lemma header_fixstr n : 0 <= n <= 31 -> header_class (Z.lor 0xA0 n) = FFixStr n.
Proof.
  intros H. rewrite lor_A0 by lia. unfold header_class.
  repeat (zcase; try lia); try reflexivity; f_equal; lia.
Qed.

Lemma header_fixarray n : 0 <= n <= 15 -> header_class (Z.lor 0x90 n) = FFixArray n.
Proof.
  intros H. rewrite lor_90 by lia. unfold header_class.
  repeat (zcase; try lia); try reflexivity; f_equal; lia.
Qed.

Lemma header_fixmap n : 0 <= n <= 15 -> header_class (Z.lor 0x80 n) = FFixMap n.
Proof.
  intros H. rewrite lor_80 by lia. unfold header_class.
  repeat (zcase; try lia); try reflexivity; f_equal; lia.
Qed.

Ltac fmt_cases H :=
  cbn in H;
  repeat match type of H with
  | _ \/ _ => destruct H as [H|H]
  | False => destruct H
  | (_, _) = (_, _) => injection H as <- <-
  end.

Lemma uint_hdr k hdr : In (k, hdr) uint_fmts -> header_class hdr = FUInt k.
Proof. intros H; fmt_cases H; reflexivity. Qed.
Lemma int_hdr k hdr : In (k, hdr) int_fmts -> header_class hdr = FInt k /\ (1 <= k)%nat.
Proof. intros H; fmt_cases H; split; (reflexivity || lia). Qed.
Lemma bin_hdr k hdr : In (k, hdr) bin_fmts -> header_class hdr = FBin k.
Proof. intros H; fmt_cases H; reflexivity. Qed.
Lemma str_hdr k hdr : In (k, hdr) str_fmts -> header_class hdr = FStr k.
Proof. intros H; fmt_cases H; reflexivity. Qed.
Lemma fixext_hdr s hdr : In (s, hdr) fixext_fmts -> header_class hdr = FFixExt s.
Proof. intros H; fmt_cases H; reflexivity. Qed.
Lemma ext_hdr k hdr : In (k, hdr) ext_fmts -> header_class hdr = FExt k.
Proof. intros H; fmt_cases H; reflexivity. Qed.
Lemma array_hdr k hdr : In (k, hdr) array_fmts -> header_class hdr = FArray k.
Proof. intros H; fmt_cases H; reflexivity. Qed.
Lemma map_hdr k hdr : In (k, hdr) map_fmts -> header_class hdr = FMap k.
Proof. intros H; fmt_cases H; reflexivity. Qed.

Lemma zlen_nonneg {A} (l : list A) : 0 <= zlen l.
Proof. unfold zlen. lia. Qed.

Lemma zlen_cons {A} (x : A) l : zlen (x :: l) = 1 + zlen l.
Proof. unfold zlen. simpl length. lia. Qed.

(* ------------------------------------------------------------------ *)
(** ** Decoding a well-formed encoding *)

Section Decode.
Variable R : ext_registry.

Lemma wire_unpack_at_mut :
    forall v r, wire_enc v r -> ext_free v = true ->
      forall f rest, (need v <= f)%nat -> unpack_at R f (r ++ rest) = Ok (v, rest).
  Proof.
    intros v r H. unfold wire_enc in H.
    induction H using enc_rel_mut with
      (P0 := fun l bs _ => forallb ext_free l = true -> forall f rest,
               (sum_list_with (fun x => S (need x)) l <= f)%nat ->
               unpack_array R f (zlen l) (bs ++ rest) = Ok (l, rest))
      (P1 := fun l bs _ => forallb (fun kv => ext_free kv.1 && ext_free kv.2) l = true ->
               forall f rest,
               (sum_list_with (fun kv => S (need kv.1 + need kv.2)) l <= f)%nat ->
               unpack_map R f (zlen l) (bs ++ rest) = Ok (l, rest));
      intros Hfree f rest Hf.
    - destruct f; [simpl in Hf; lia|]. reflexivity.
    - destruct f; [simpl in Hf; lia|]. destruct b; reflexivity.
    - destruct f; [simpl in Hf; lia|]. cbn [unpack_at app].
      rewrite header_posfix by lia. reflexivity.
    - destruct f; [simpl in Hf; lia|]. cbn [unpack_at app].
      rewrite header_negfix by lia. reflexivity.
    - destruct f; [simpl in Hf; lia|]. cbn [unpack_at app].
      rewrite (uint_hdr _ _ i). cbv beta iota.
      rewrite read_be_small by lia. reflexivity.
    - destruct f; [simpl in Hf; lia|]. cbn [unpack_at app].
      destruct (int_hdr _ _ i) as [-> Hk]. cbv beta iota.
      rewrite read_be_signed_app by lia. reflexivity.
    - destruct f; [simpl in Hf; lia|]. cbn [unpack_at app].
      replace (header_class 0xCA) with FFloat32 by reflexivity. cbv beta iota.
      rewrite read_be_small by lia. reflexivity.
    - destruct f; [simpl in Hf; lia|]. cbn [unpack_at app].
      replace (header_class 0xCB) with FFloat64 by reflexivity. cbv beta iota.
      rewrite read_be_small by lia. reflexivity.
    - destruct f; [simpl in Hf; lia|]. cbn [unpack_at app].
      rewrite (bin_hdr _ _ i). cbv beta iota. rewrite <- app_assoc.
      pose proof (zlen_nonneg d).
      rewrite read_be_small by lia. cbn [res_bind].
      rewrite read_bytes_app. reflexivity.
    - destruct f; [simpl in Hf; lia|]. cbn [unpack_at app].
      pose proof (zlen_nonneg d).
      rewrite header_fixstr by lia. cbv beta iota. unfold unpack_str.
      rewrite read_bytes_app. cbn [res_bind]. rewrite e. reflexivity.
    - destruct f; [simpl in Hf; lia|]. cbn [unpack_at app].
      rewrite (str_hdr _ _ i). cbv beta iota. rewrite <- app_assoc.
      pose proof (zlen_nonneg d).
      rewrite read_be_small by lia. cbn [res_bind]. unfold unpack_str.
      rewrite read_bytes_app. cbn [res_bind]. rewrite e. reflexivity.
    - discriminate.
    - discriminate.
    - destruct f; [simpl in Hf; lia|]. cbn [unpack_at app].
      pose proof (zlen_nonneg l).
      rewrite header_fixarray by lia. cbv beta iota.
      rewrite IHenc_rel by (simpl in Hf, Hfree; auto with lia). reflexivity.
    - destruct f; [simpl in Hf; lia|]. cbn [unpack_at app].
      rewrite (array_hdr _ _ i). cbv beta iota. rewrite <- app_assoc.
      pose proof (zlen_nonneg l).
      rewrite read_be_small by lia. cbn [res_bind].
      rewrite IHenc_rel by (simpl in Hf, Hfree; auto with lia). reflexivity.
    - destruct f; [simpl in Hf; lia|]. cbn [unpack_at app].
      pose proof (zlen_nonneg l).
      rewrite header_fixmap by lia. cbv beta iota.
      rewrite IHenc_rel by (simpl in Hf, Hfree; auto with lia). reflexivity.
    - destruct f; [simpl in Hf; lia|]. cbn [unpack_at app].
      rewrite (map_hdr _ _ i). cbv beta iota. rewrite <- app_assoc.
      pose proof (zlen_nonneg l).
      rewrite read_be_small by lia. cbn [res_bind].
      rewrite IHenc_rel by (simpl in Hf, Hfree; auto with lia). reflexivity.
    - destruct f; reflexivity.
    - simpl in Hfree, Hf. apply andb_prop in Hfree as [Hx Ht].
      destruct f as [|f]; [lia|]. cbn [unpack_array].
      rewrite zlen_cons. destruct (Z.leb_spec0 (1 + zlen t) 0).
      { pose proof (zlen_nonneg t). lia. }
      rewrite <- app_assoc, IHenc_rel by (auto with lia). cbn [res_bind].
      replace (1 + zlen t - 1) with (zlen t) by lia.
      rewrite IHenc_rel0 by (auto with lia). reflexivity.
    - destruct f; reflexivity.
    - simpl in Hfree, Hf. apply andb_prop in Hfree as [Hkx Ht].
      apply andb_prop in Hkx as [Hk Hx].
      destruct f as [|f]; [lia|]. cbn [unpack_map].
      rewrite zlen_cons. destruct (Z.leb_spec0 (1 + zlen t) 0).
      { pose proof (zlen_nonneg t). lia. }
      rewrite <- !app_assoc, IHenc_rel1 by (auto with lia). cbn [res_bind].
      rewrite IHenc_rel2 by (auto with lia). cbn [res_bind].
      replace (1 + zlen t - 1) with (zlen t) by lia.
      rewrite IHenc_rel3 by (auto with lia). reflexivity.
  Qed.
End Decode.

Lemma need_bound (g : nat -> list Z -> Prop) :
  forall v r, enc_rel g v r -> (S (need v) <= 2 * length r)%nat.
Proof.
  intros v r H.
  induction H using enc_rel_mut with
    (P0 := fun l bs _ => (sum_list_with (fun x => S (need x)) l <= 2 * length bs)%nat)
    (P1 := fun l bs _ => (sum_list_with (fun kv => S (need kv.1 + need kv.2)) l
                          <= 2 * length bs)%nat);
    cbn [need sum_list_with length fst snd] in *;
    rewrite ?length_app, ?be_length in *; simpl length in *; lia.
Qed.

Lemma wire_unpack R v r :
  wire_enc v r -> ext_free v = true -> unpack R r = Ok (v, length r).
Proof.
  intros H Hfree. unfold unpack.
  pose proof (need_bound _ _ _ H) as Hb.
  pose proof (wire_unpack_at_mut R v r H Hfree (2 * length r) [] ltac:(lia)) as Hu.
  rewrite app_nil_r in Hu. rewrite Hu. simpl. do 2 f_equal. lia.
Qed.

(** With the registry of the tests, extension encodings decode too. *)
Lemma wire_unpack_std_at_mut :
    forall v r, wire_enc v r ->
      forall f rest, (need v <= f)%nat -> unpack_at ext_std f (r ++ rest) = Ok (v, rest).
  Proof.
    intros v r H. unfold wire_enc in H.
    induction H using enc_rel_mut with
      (P0 := fun l bs _ => forall f rest,
               (sum_list_with (fun x => S (need x)) l <= f)%nat ->
               unpack_array ext_std f (zlen l) (bs ++ rest) = Ok (l, rest))
      (P1 := fun l bs _ => forall f rest,
               (sum_list_with (fun kv => S (need kv.1 + need kv.2)) l <= f)%nat ->
               unpack_map ext_std f (zlen l) (bs ++ rest) = Ok (l, rest));
      intros f rest Hf.
    - destruct f; [simpl in Hf; lia|]. reflexivity.
    - destruct f; [simpl in Hf; lia|]. destruct b; reflexivity.
    - destruct f; [simpl in Hf; lia|]. cbn [unpack_at app].
      rewrite header_posfix by lia. reflexivity.
    - destruct f; [simpl in Hf; lia|]. cbn [unpack_at app].
      rewrite header_negfix by lia. reflexivity.
    - destruct f; [simpl in Hf; lia|]. cbn [unpack_at app].
      rewrite (uint_hdr _ _ i). cbv beta iota.
      rewrite read_be_small by lia. reflexivity.
    - destruct f; [simpl in Hf; lia|]. cbn [unpack_at app].
      destruct (int_hdr _ _ i) as [-> Hk]. cbv beta iota.
      rewrite read_be_signed_app by lia. reflexivity.
    - destruct f; [simpl in Hf; lia|]. cbn [unpack_at app].
      replace (header_class 0xCA) with FFloat32 by reflexivity. cbv beta iota.
      rewrite read_be_small by lia. reflexivity.
    - destruct f; [simpl in Hf; lia|]. cbn [unpack_at app].
      replace (header_class 0xCB) with FFloat64 by reflexivity. cbv beta iota.
      rewrite read_be_small by lia. reflexivity.
    - destruct f; [simpl in Hf; lia|]. cbn [unpack_at app].
      rewrite (bin_hdr _ _ i). cbv beta iota. rewrite <- app_assoc.
      pose proof (zlen_nonneg d).
      rewrite read_be_small by lia. cbn [res_bind].
      rewrite read_bytes_app. reflexivity.
    - destruct f; [simpl in Hf; lia|]. cbn [unpack_at app].
      pose proof (zlen_nonneg d).
      rewrite header_fixstr by lia. cbv beta iota. unfold unpack_str.
      rewrite read_bytes_app. cbn [res_bind]. rewrite e. reflexivity.
    - destruct f; [simpl in Hf; lia|]. cbn [unpack_at app].
      rewrite (str_hdr _ _ i). cbv beta iota. rewrite <- app_assoc.
      pose proof (zlen_nonneg d).
      rewrite read_be_small by lia. cbn [res_bind]. unfold unpack_str.
      rewrite read_bytes_app. cbn [res_bind]. rewrite e. reflexivity.
    - destruct f; [simpl in Hf; lia|]. cbn [unpack_at app].
      rewrite (fixext_hdr _ _ i). cbv beta iota. subst size.
      unfold unpack_ext, ext_std. rewrite read_bytes_app. reflexivity.
    - destruct f; [simpl in Hf; lia|]. cbn [unpack_at app].
      rewrite (ext_hdr _ _ i). unfold ext_std. cbv beta iota. rewrite <- app_assoc.
      pose proof (zlen_nonneg d).
      rewrite read_be_small by lia. cbn [res_bind app].
      unfold unpack_ext. rewrite read_bytes_app. reflexivity.
    - destruct f; [simpl in Hf; lia|]. cbn [unpack_at app].
      pose proof (zlen_nonneg l).
      rewrite header_fixarray by lia. cbv beta iota.
      rewrite IHenc_rel by (simpl in Hf; auto with lia). reflexivity.
    - destruct f; [simpl in Hf; lia|]. cbn [unpack_at app].
      rewrite (array_hdr _ _ i). cbv beta iota. rewrite <- app_assoc.
      pose proof (zlen_nonneg l).
      rewrite read_be_small by lia. cbn [res_bind].
      rewrite IHenc_rel by (simpl in Hf; auto with lia). reflexivity.
    - destruct f; [simpl in Hf; lia|]. cbn [unpack_at app].
      pose proof (zlen_nonneg l).
      rewrite header_fixmap by lia. cbv beta iota.
      rewrite IHenc_rel by (simpl in Hf; auto with lia). reflexivity.
    - destruct f; [simpl in Hf; lia|]. cbn [unpack_at app].
      rewrite (map_hdr _ _ i). cbv beta iota. rewrite <- app_assoc.
      pose proof (zlen_nonneg l).
      rewrite read_be_small by lia. cbn [res_bind].
      rewrite IHenc_rel by (simpl in Hf; auto with lia). reflexivity.
    - destruct f; reflexivity.
    - simpl in Hf.
      destruct f as [|f]; [lia|]. cbn [unpack_array].
      rewrite zlen_cons. destruct (Z.leb_spec0 (1 + zlen t) 0).
      { pose proof (zlen_nonneg t). lia. }
      rewrite <- app_assoc, IHenc_rel by (auto with lia). cbn [res_bind].
      replace (1 + zlen t - 1) with (zlen t) by lia.
      rewrite IHenc_rel0 by (auto with lia). reflexivity.
    - destruct f; reflexivity.
    - simpl in Hf.
      destruct f as [|f]; [lia|]. cbn [unpack_map].
      rewrite zlen_cons. destruct (Z.leb_spec0 (1 + zlen t) 0).
      { pose proof (zlen_nonneg t). lia. }
      rewrite <- !app_assoc, IHenc_rel1 by (auto with lia). cbn [res_bind].
      rewrite IHenc_rel2 by (auto with lia). cbn [res_bind].
      replace (1 + zlen t - 1) with (zlen t) by lia.
      rewrite IHenc_rel3 by (auto with lia). reflexivity.
  Qed.

(** Without a registry, a well-formed encoding that holds an extension
    object anywhere fails with [UnknownExtensionCode]. *)
Lemma wire_noext_fail_mut :
    forall v r, wire_enc v r -> ext_free v = false ->
      forall f rest, (need v <= f)%nat ->
      unpack_at NoExt f (r ++ rest) = Err UnknownExtensionCode.
  Proof.
    intros v r H. unfold wire_enc in H.
    induction H using enc_rel_mut with
      (P0 := fun l bs _ => forallb ext_free l = false -> forall f rest,
               (sum_list_with (fun x => S (need x)) l <= f)%nat ->
               unpack_array NoExt f (zlen l) (bs ++ rest) = Err UnknownExtensionCode)
      (P1 := fun l bs _ => forallb (fun kv => ext_free kv.1 && ext_free kv.2) l = false ->
               forall f rest,
               (sum_list_with (fun kv => S (need kv.1 + need kv.2)) l <= f)%nat ->
               unpack_map NoExt f (zlen l) (bs ++ rest) = Err UnknownExtensionCode);
      intros Hfree f rest Hf; try (cbn in Hfree; discriminate).
    - destruct f; [simpl in Hf; lia|]. cbn [unpack_at app].
      rewrite (fixext_hdr _ _ i). reflexivity.
    - destruct f; [simpl in Hf; lia|]. cbn [unpack_at app].
      rewrite (ext_hdr _ _ i). reflexivity.
    - destruct f; [simpl in Hf; lia|]. cbn [unpack_at app].
      pose proof (zlen_nonneg l).
      rewrite header_fixarray by lia. cbv beta iota.
      rewrite IHenc_rel by (simpl in Hf, Hfree; auto with lia). reflexivity.
    - destruct f; [simpl in Hf; lia|]. cbn [unpack_at app].
      rewrite (array_hdr _ _ i). cbv beta iota. rewrite <- app_assoc.
      pose proof (zlen_nonneg l).
      rewrite read_be_small by lia. cbn [res_bind].
      rewrite IHenc_rel by (simpl in Hf, Hfree; auto with lia). reflexivity.
    - destruct f; [simpl in Hf; lia|]. cbn [unpack_at app].
      pose proof (zlen_nonneg l).
      rewrite header_fixmap by lia. cbv beta iota.
      rewrite IHenc_rel by (simpl in Hf, Hfree; auto with lia). reflexivity.
    - destruct f; [simpl in Hf; lia|]. cbn [unpack_at app].
      rewrite (map_hdr _ _ i). cbv beta iota. rewrite <- app_assoc.
      pose proof (zlen_nonneg l).
      rewrite read_be_small by lia. cbn [res_bind].
      rewrite IHenc_rel by (simpl in Hf, Hfree; auto with lia). reflexivity.
    - simpl in Hfree, Hf.
      destruct f as [|f]; [lia|]. cbn [unpack_array].
      rewrite zlen_cons. destruct (Z.leb_spec0 (1 + zlen t) 0).
      { pose proof (zlen_nonneg t). lia. }
      rewrite <- app_assoc.
      replace (1 + zlen t - 1) with (zlen t) by lia.
      destruct (ext_free x) eqn:Hx.
      + rewrite (wire_unpack_at_mut NoExt x a ltac:(assumption) Hx) by lia. cbn [res_bind].
        rewrite IHenc_rel0 by (auto with lia). reflexivity.
      + rewrite IHenc_rel by (auto with lia). reflexivity.
    - simpl in Hfree, Hf.
      destruct f as [|f]; [lia|]. cbn [unpack_map].
      rewrite zlen_cons. destruct (Z.leb_spec0 (1 + zlen t) 0).
      { pose proof (zlen_nonneg t). lia. }
      rewrite <- !app_assoc.
      replace (1 + zlen t - 1) with (zlen t) by lia.
      destruct (ext_free k) eqn:Hk.
      + rewrite (wire_unpack_at_mut NoExt k a ltac:(assumption) Hk) by lia. cbn [res_bind].
        destruct (ext_free x) eqn:Hx.
        * rewrite (wire_unpack_at_mut NoExt x b ltac:(assumption) Hx) by lia. cbn [res_bind].
          rewrite IHenc_rel3 by (auto with lia). reflexivity.
        * rewrite IHenc_rel2 by (auto with lia). reflexivity.
      + rewrite IHenc_rel1 by (auto with lia). reflexivity.
  Qed.

(* ------------------------------------------------------------------ *)
(** ** The encoder writes wire encodings *)

Ltac zsplit :=
  repeat (match goal with
          | |- context [?a <=? ?b] => destruct (Z.leb_spec0 a b)
          | |- context [?a <? ?b] => destruct (Z.ltb_spec0 a b)
          | |- context [?a =? ?b] => destruct (Z.eqb_spec a b)
          end; cbn [andb orb negb]; try lia).

Ltac in_fmt := cbn; repeat (first [left; reflexivity | right]).

Section Encode.
Variable g : nat -> list Z -> Prop.

Lemma pack_int_enc n bs : pack_int n = Ok bs -> enc_rel g (VInt n) bs.
  Proof.
    unfold pack_int, in_rng. zsplit; intros [= <-];
      first [ apply ER_positive_fixnum; lia
            | rewrite <- (lor_E0 n) by lia; apply ER_negative_fixnum; lia
            | (eapply (ER_uint g 1%nat) || eapply (ER_uint g 2%nat) ||
               eapply (ER_uint g 4%nat) || eapply (ER_uint g 8%nat));
              [in_fmt | unfold umax; simpl; lia]
            | (eapply (ER_int g 1%nat) || eapply (ER_int g 2%nat) ||
               eapply (ER_int g 4%nat) || eapply (ER_int g 8%nat));
              [in_fmt | simpl; lia] ].
  Qed.

Lemma concat_items R l body :
    Forall (fun x => forall bs, ext_free x = true -> pack R x = Ok bs -> enc_rel g x bs) l ->
    forallb ext_free l = true ->
    concat_results (pack R) l = Ok body -> enc_items g l body.
  Proof.
    intros Hall. revert body. induction Hall as [|x l Hx Hl IH]; cbn; intros body Hf.
    - intros [= <-]. constructor.
    - apply andb_prop in Hf as [Hfx Hfl].
      destruct (pack R x) as [a|e] eqn:Ha; cbn; [|discriminate].
      destruct (concat_results (pack R) l) as [b|e] eqn:Hb; cbn; [|discriminate].
      intros [= <-]. constructor; auto.
  Qed.

Lemma concat_pairs R l body :
    Forall (fun kv => (forall bs, ext_free kv.1 = true -> pack R kv.1 = Ok bs -> enc_rel g kv.1 bs)
                   /\ (forall bs, ext_free kv.2 = true -> pack R kv.2 = Ok bs -> enc_rel g kv.2 bs)) l ->
    forallb (fun kv => ext_free kv.1 && ext_free kv.2) l = true ->
    concat_results (fun '(k, x) => let! a := pack R k in let! b := pack R x in Ok (a ++ b)) l
      = Ok body -> enc_pairs g l body.
  Proof.
    intros Hall. revert body. induction Hall as [|[k x] l [Hk Hx] Hl IH]; cbn; intros body Hf.
    - intros [= <-]. constructor.
    - apply andb_prop in Hf as [Hfkx Hfl]. apply andb_prop in Hfkx as [Hfk Hfx].
      destruct (pack R k) as [a|e] eqn:Ha; cbn; [|discriminate].
      destruct (pack R x) as [b|e] eqn:Hb; cbn; [|discriminate].
      destruct (concat_results _ l) as [c|e] eqn:Hc; cbn; [|discriminate].
      intros [= <-]. rewrite <- app_assoc. constructor; auto.
  Qed.
End Encode.

Lemma pack_wire R v :
  forall bs, ext_free v = true -> pack R v = Ok bs -> wire_enc v bs.
Proof.
  unfold wire_enc.
  induction v as [| b | n | n | n | d | d | l IH | l IH | c d] using value_ind';
    intros bs Hf; cbn [pack]; try discriminate Hf.
  - intros [= <-]. constructor.
  - destruct b; intros [= <-]; [exact (ER_boolean _ true) | exact (ER_boolean _ false)].
  - apply pack_int_enc.
  - unfold in_rng. zsplit; intros [= <-]. apply (ER_float32 _ n). unfold umax; simpl; lia.
  - unfold in_rng. zsplit; intros [= <-]. apply (ER_float64 _ n). unfold umax; simpl; lia.
  - destruct (bin_header (zlen d)) as [h|e] eqn:Hh; cbn [res_bind]; [|discriminate].
    intros [= <-]. revert Hh. unfold bin_header. pose proof (zlen_nonneg d).
    zsplit; intros [= <-]; cbn [app].
    + apply (ER_bin _ 1%nat); [in_fmt | unfold umax; simpl; lia].
    + apply (ER_bin _ 2%nat); [in_fmt | unfold umax; simpl; lia].
    + apply (ER_bin _ 4%nat); [in_fmt | unfold umax; simpl; lia].
  - destruct (utf8_valid d) eqn:Hu; [|discriminate].
    destruct (str_header (zlen d)) as [h|e] eqn:Hh; cbn [res_bind]; [|discriminate].
    intros [= <-]. revert Hh. unfold str_header. pose proof (zlen_nonneg d).
    zsplit; intros [= <-]; cbn [app].
    + apply ER_fixstr; auto.
    + apply (ER_str _ 1%nat); [in_fmt | auto | unfold umax; simpl; lia].
    + apply (ER_str _ 2%nat); [in_fmt | auto | unfold umax; simpl; lia].
    + apply (ER_str _ 4%nat); [in_fmt | auto | unfold umax; simpl; lia].
  - destruct (array_header (zlen l)) as [h|e] eqn:Hh; cbn [res_bind]; [|discriminate].
    destruct (concat_results (pack R) l) as [body|e] eqn:Hb; cbn [res_bind]; [|discriminate].
    intros [= <-]. pose proof (concat_items _ R l body IH Hf Hb) as Hi.
    revert Hh. unfold array_header. pose proof (zlen_nonneg l).
    zsplit; intros [= <-]; cbn [app].
    + apply ER_fixarray; auto.
    + apply (ER_array _ 2%nat); [in_fmt | auto | unfold umax; simpl; lia].
    + apply (ER_array _ 4%nat); [in_fmt | auto | unfold umax; simpl; lia].
  - destruct (map_header (zlen l)) as [h|e] eqn:Hh; cbn [res_bind]; [|discriminate].
    destruct (concat_results _ l) as [body|e] eqn:Hb; cbn [res_bind]; [|discriminate].
    intros [= <-]. pose proof (concat_pairs _ R l body IH Hf Hb) as Hi.
    revert Hh. unfold map_header. pose proof (zlen_nonneg l).
    zsplit; intros [= <-]; cbn [app].
    + apply ER_fixmap; auto.
    + apply (ER_map _ 2%nat); [in_fmt | auto | unfold umax; simpl; lia].
    + apply (ER_map _ 4%nat); [in_fmt | auto | unfold umax; simpl; lia].
Qed.

(* ------------------------------------------------------------------ *)
(** ** The encoder picks the shortest encoding *)

Ltac len_finish := repeat (cbn [length app] || rewrite length_app || rewrite be_length); lia.

Section Minimal.
Variable R : ext_registry.
  (** The registry hands an extension object's own code and payload back. *)
Hypothesis HR : forall c d p, ext_match R (VExt c d) = Some p -> p = (c, d).

Lemma pack_int_min n r bs :
    wire_enc (VInt n) r -> pack_int n = Ok bs -> (length bs <= length r)%nat.
  Proof.
    intros Hr. inversion Hr as [| | | | k hdr n' Hk Hn | k hdr n' Hk Hn | | | | | | | | | | |];
      subst; try (fmt_cases Hk); unfold umax in *; simpl in *;
      unfold pack_int, in_rng; zsplit; intros [= <-]; simpl; lia.
  Qed.

Lemma pack_min_mut :
    forall v r, wire_enc v r -> forall bs, pack R v = Ok bs -> (length bs <= length r)%nat.
  Proof.
    unfold wire_enc.
    apply (enc_rel_mut _
      (fun v r _ => forall bs, pack R v = Ok bs -> (length bs <= length r)%nat)
      (fun l r _ => forall bs, concat_results (pack R) l = Ok bs -> (length bs <= length r)%nat)
      (fun l r _ => forall bs, concat_results (fun '(k, x) =>
          let! a := pack R k in let! b := pack R x in Ok (a ++ b)) l = Ok bs ->
          (length bs <= length r)%nat)).
    - intros bs H. injection H as <-. simpl. lia.
    - intros b bs H. injection H as <-. simpl. lia.
    - intros n Hn bs H. eapply pack_int_min; [apply ER_positive_fixnum; exact Hn | exact H].
    - intros n Hn bs H. eapply pack_int_min; [apply ER_negative_fixnum; exact Hn | exact H].
    - intros k hdr n Hk Hn bs H. eapply pack_int_min; [eapply ER_uint; eauto | exact H].
    - intros k hdr n Hk Hn bs H. eapply pack_int_min; [eapply ER_int; eauto | exact H].
    - intros bits Hb bs. cbn [pack]. unfold in_rng, umax in *. simpl in Hb.
      zsplit; intros [= <-]. simpl. lia.
    - intros bits Hb bs. cbn [pack]. unfold in_rng, umax in *. simpl in Hb.
      zsplit; intros [= <-]. simpl. lia.
    - intros k hdr d Hk Hlen bs. cbn [pack].
      destruct (bin_header (zlen d)) as [h|e] eqn:Hh; cbn [res_bind]; [|discriminate].
      intros [= <-]. revert Hh. unfold bin_header, umax in *. pose proof (zlen_nonneg d).
      fmt_cases Hk; simpl in Hlen; zsplit; intros [= <-]; len_finish.
    - intros d Hu Hlen bs. cbn [pack]. rewrite Hu.
      destruct (str_header (zlen d)) as [h|e] eqn:Hh; cbn [res_bind]; [|discriminate].
      intros [= <-]. revert Hh. unfold str_header. pose proof (zlen_nonneg d).
      zsplit; intros [= <-]; len_finish.
    - intros k hdr d Hk Hu Hlen bs. cbn [pack]. rewrite Hu.
      destruct (str_header (zlen d)) as [h|e] eqn:Hh; cbn [res_bind]; [|discriminate].
      intros [= <-]. revert Hh. unfold str_header, umax in *. pose proof (zlen_nonneg d).
      fmt_cases Hk; simpl in Hlen; zsplit; intros [= <-]; len_finish.
    - intros size hdr c d Hk Hc Hsize bs. cbn [pack].
      destruct (ext_match R (VExt c d)) as [[c' d']|] eqn:He; [|discriminate].
      apply HR in He. injection He as -> ->.
      unfold pack_ext, in_rng. zsplit.
      destruct (ext_header _ c) as [h|e] eqn:Hh; cbn [res_bind]; [|discriminate].
      intros [= <-]. revert Hh. unfold ext_header, zlen in *.
      fmt_cases Hk; zsplit; intros [= <-]; len_finish.
    - intros k hdr c d Hk Hc Hlen bs. cbn [pack].
      destruct (ext_match R (VExt c d)) as [[c' d']|] eqn:He; [|discriminate].
      apply HR in He. injection He as -> ->.
      unfold pack_ext, in_rng. zsplit.
      destruct (ext_header _ c) as [h|e] eqn:Hh; cbn [res_bind]; [|discriminate].
      intros [= <-]. revert Hh. unfold ext_header, zlen, umax in *.
      fmt_cases Hk; simpl in Hlen; zsplit; intros [= <-]; len_finish.
    - intros l body Hi IH Hlen bs. cbn [pack].
      destruct (array_header (zlen l)) as [h|e] eqn:Hh; cbn [res_bind]; [|discriminate].
      destruct (concat_results (pack R) l) as [b|e] eqn:Hb; cbn [res_bind]; [|discriminate].
      intros [= <-]. specialize (IH _ eq_refl). revert Hh. unfold array_header.
      pose proof (zlen_nonneg l). zsplit; intros [= <-]; len_finish.
    - intros k hdr l body Hk Hi IH Hlen bs. cbn [pack].
      destruct (array_header (zlen l)) as [h|e] eqn:Hh; cbn [res_bind]; [|discriminate].
      destruct (concat_results (pack R) l) as [b|e] eqn:Hb; cbn [res_bind]; [|discriminate].
      intros [= <-]. specialize (IH _ eq_refl). revert Hh. unfold array_header, umax in *.
      pose proof (zlen_nonneg l). fmt_cases Hk; simpl in Hlen; zsplit; intros [= <-]; len_finish.
    - intros l body Hi IH Hlen bs. cbn [pack].
      destruct (map_header (zlen l)) as [h|e] eqn:Hh; cbn [res_bind]; [|discriminate].
      destruct (concat_results _ l) as [b|e] eqn:Hb; cbn [res_bind]; [|discriminate].
      intros [= <-]. specialize (IH _ eq_refl). revert Hh. unfold map_header.
      pose proof (zlen_nonneg l). zsplit; intros [= <-]; len_finish.
    - intros k hdr l body Hk Hi IH Hlen bs. cbn [pack].
      destruct (map_header (zlen l)) as [h|e] eqn:Hh; cbn [res_bind]; [|discriminate].
      destruct (concat_results _ l) as [b|e] eqn:Hb; cbn [res_bind]; [|discriminate].
      intros [= <-]. specialize (IH _ eq_refl). revert Hh. unfold map_header, umax in *.
      pose proof (zlen_nonneg l). fmt_cases Hk; simpl in Hlen; zsplit; intros [= <-]; len_finish.
    - intros bs H. injection H as <-. simpl. lia.
    - intros x t a b Hx IHx Ht IHt bs. cbn [concat_results].
      destruct (pack R x) as [a'|e] eqn:Ha; cbn [res_bind]; [|discriminate].
      destruct (concat_results (pack R) t) as [b'|e] eqn:Hb; cbn [res_bind]; [|discriminate].
      intros [= <-]. specialize (IHx _ eq_refl). specialize (IHt _ eq_refl). len_finish.
    - intros bs H. injection H as <-. simpl. lia.
    - intros k x t a b c Hk IHk Hx IHx Ht IHt bs. cbn [concat_results].
      destruct (pack R k) as [a'|e] eqn:Ha; cbn [res_bind]; [|discriminate].
      destruct (pack R x) as [b'|e] eqn:Hb; cbn [res_bind]; [|discriminate].
      destruct (concat_results _ t) as [c'|e] eqn:Hc; cbn [res_bind]; [|discriminate].
      intros [= <-]. specialize (IHk _ eq_refl). specialize (IHx _ eq_refl).
      specialize (IHt _ eq_refl). len_finish.
  Qed.
End Minimal.

(* ------------------------------------------------------------------ *)
(** ** Totality and registry independence of the encoder *)

Lemma Forall_forallb_imp {A} (P : A -> Prop) (f : A -> bool) l :
  Forall (fun x => f x = true -> P x) l -> forallb f l = true -> Forall P l.
Proof.
  induction 1 as [|x l Hx Hl IH]; cbn; intros Hf; constructor.
  - apply Hx. now apply andb_prop in Hf as [? ?].
  - apply IH. now apply andb_prop in Hf as [? ?].
Qed.

Lemma concat_results_ext {A} (f g : A -> result (list Z) encode_error) l :
  Forall (fun x => f x = g x) l -> concat_results f l = concat_results g l.
Proof. induction 1 as [|x l Hx Hl IH]; cbn; [reflexivity|]. now rewrite Hx, IH. Qed.

Lemma concat_results_ok {A} (f : A -> result (list Z) encode_error) l :
  Forall (fun x => exists bs, f x = Ok bs) l -> exists bs, concat_results f l = Ok bs.
Proof.
  induction 1 as [|x l [a Ha] Hl [b Hb]]; cbn; [eauto|].
  rewrite Ha, Hb. cbn. eauto.
Qed.

Lemma pack_reg_indep R R' v : ext_free v = true -> pack R v = pack R' v.
Proof.
  induction v as [| b | n | n | n | d | d | l IH | l IH | c d] using value_ind';
    cbn [ext_free]; intros Hf; try discriminate Hf; try reflexivity.
  - cbn [pack]. rewrite (concat_results_ext (pack R) (pack R') l); [reflexivity|].
    exact (Forall_forallb_imp _ _ _ IH Hf).
  - cbn [pack].
    erewrite (concat_results_ext _ (fun '(k, x) =>
      let! a := pack R' k in let! b := pack R' x in Ok (a ++ b)) l); [reflexivity|].
    apply (Forall_forallb_imp (fun kv => pack R kv.1 = pack R' kv.1 /\ pack R kv.2 = pack R' kv.2))
      in Hf.
    + eapply Forall_impl; [exact Hf|]. intros [k x] [Hk Hx]. cbn in *. now rewrite Hk, Hx.
    + eapply Forall_impl; [exact IH|]. intros [k x] [Hk Hx] Hkx. cbn in *.
      apply andb_prop in Hkx as [? ?]. auto.
Qed.

Lemma pack_total R v : ext_free v = true -> legal v = true -> exists bs, pack R v = Ok bs.
Proof.
  induction v as [| b | n | n | n | d | d | l IH | l IH | c d] using value_ind';
    cbn [ext_free legal]; intros Hf Hl; try discriminate Hf; cbn [pack]; eauto.
  - apply andb_prop in Hl as [H1 H2]. apply Z.leb_le in H1, H2.
    unfold pack_int, in_rng. zsplit; eauto.
  - rewrite Hl. eauto.
  - rewrite Hl. eauto.
  - apply Z.leb_le in Hl. pose proof (zlen_nonneg d).
    unfold bin_header. zsplit; cbn [res_bind]; eauto.
  - apply andb_prop in Hl as [Hu Hl]. apply Z.leb_le in Hl. rewrite Hu.
    pose proof (zlen_nonneg d). unfold str_header. zsplit; cbn [res_bind]; eauto.
  - apply andb_prop in Hl as [Hn Hl]. apply Z.leb_le in Hn.
    destruct (concat_results_ok (pack R) l) as [body Hb].
    { apply (Forall_forallb_imp _ _ _ (Forall_forallb_imp _ _ _ IH Hf) Hl). }
    rewrite Hb. pose proof (zlen_nonneg l). unfold array_header. zsplit; cbn [res_bind]; eauto.
  - apply andb_prop in Hl as [Hn Hl]. apply Z.leb_le in Hn.
    destruct (concat_results_ok (fun '(k, x) =>
      let! a := pack R k in let! b := pack R x in Ok (a ++ b)) l) as [body Hb].
    { assert (H1 : Forall (fun kv => legal kv.1 && legal kv.2 = true ->
                (exists a, pack R kv.1 = Ok a) /\ (exists b, pack R kv.2 = Ok b)) l).
      { apply (Forall_forallb_imp _ (fun kv => ext_free kv.1 && ext_free kv.2)); [|exact Hf].
        eapply Forall_impl; [exact IH|]. intros [k x] [Hk Hx] Hkx Hl'. cbn in *.
        apply andb_prop in Hkx as [? ?]. apply andb_prop in Hl' as [? ?]. auto. }
      pose proof (Forall_forallb_imp _ _ _ H1 Hl) as H2.
      eapply Forall_impl; [exact H2|]. intros [k x] [[a Ha] [b Hb]]. cbn in *.
      rewrite Ha, Hb. cbn. eauto. }
    rewrite Hb. pose proof (zlen_nonneg l). unfold map_header. zsplit; cbn [res_bind]; eauto.
Qed.

(* ------------------------------------------------------------------ *)
(** ** Decoding without a registry *)

Ltac res_inv H :=
  repeat match type of H with
  | res_bind ?m _ = Ok _ =>
      let E := fresh "E" in
      destruct m as [[? ?]|?] eqn:E; cbn [res_bind] in H; [|discriminate H]
  | (if ?c then _ else _) = Ok _ => destruct c
  | Err _ = Ok _ => discriminate H
  | Ok _ = Ok _ => injection H as <- <-
  end.

Lemma unpack_noext_free f :
  (forall bs v r, unpack_at NoExt f bs = Ok (v, r) -> ext_free v = true) /\
  (forall n bs l r, unpack_array NoExt f n bs = Ok (l, r) -> forallb ext_free l = true) /\
  (forall n bs l r, unpack_map NoExt f n bs = Ok (l, r) ->
     forallb (fun kv => ext_free kv.1 && ext_free kv.2) l = true).
Proof.
  induction f as [|f [IHa [IHl IHm]]]; split; [| split | | split].
  - intros bs v r H. discriminate H.
  - intros n bs l r H. cbn in H. res_inv H. reflexivity.
  - intros n bs l r H. cbn in H. res_inv H. reflexivity.
  - intros [|b bs] v r H; cbn [unpack_at] in H; [discriminate H|].
    destruct (header_class b); unfold unpack_str, unpack_ext in H; res_inv H;
      cbn [ext_free]; eauto.
  - intros n bs l r H. cbn [unpack_array] in H. res_inv H; cbn [forallb]; [reflexivity|].
    erewrite IHa, IHl by eassumption. reflexivity.
  - intros n bs l r H. cbn [unpack_map] in H. res_inv H; cbn [forallb]; [reflexivity|].
    cbn [fst snd]. erewrite (IHa _ v), (IHa _ v0), IHm by eassumption. reflexivity.
Qed.

(* ------------------------------------------------------------------ *)
(** ** Session bookkeeping *)

Lemma find_free_spec {D} fuel (pend : gmap Z D) c id :
  find_free fuel pend c = Some id -> pend !! id = None /\ (id = c \/ 0 <= id < 2 ^ 32).
Proof.
  revert c. induction fuel as [|f IH]; cbn; intros c H; [discriminate|].
  destruct (pend !! c) as [x|] eqn:Hc.
  - apply IH in H as [Hn [Heq | Hr]]; split; auto. right. subst. apply Z.mod_pos_bound. lia.
  - injection H as <-. auto.
Qed.

Lemma wire_pack_unpack R R' v bs :
  ext_free v = true -> pack R v = Ok bs -> unpack R' bs = Ok (v, length bs).
Proof. intros Hf Hp. apply wire_unpack; [eapply pack_wire; eauto | exact Hf]. Qed.

Lemma response_shape_nil_l v : v <> VNil -> response_shape_ok VNil v = true.
Proof. destruct v; cbn; congruence. Qed.

Lemma response_shape_nil_r v : v <> VNil -> response_shape_ok v VNil = true.
Proof. destruct v; cbn; congruence. Qed.

(* ================================================================== *)
(** * The specification's claims *)

(** C1: the round trip of [test_pack_unpack] fails on the bytes of the
    reference packer [strategies.str8] for the text of 128 times U+00E9:
    [payloads_text(hard_max_size=255)] bounds its 128 characters, not its
    256 bytes, and [_num_tobytes(">u1", 256)] wraps to [0x00], so the
    buffer [D9 00 (C3 A9)*128] is one of the strategy's encodings of that
    value while every decoder reads it as the empty string after 2 bytes,
    not the value after 258. *)
Theorem ref_str8_length_wraps R :
  ref_enc (VStr e_acute_128) (0xD9 :: be 1 (zlen e_acute_128) ++ e_acute_128) /\
  unpack R (0xD9 :: be 1 (zlen e_acute_128) ++ e_acute_128) = Ok (VStr [], 2%nat) /\
  unpack R (0xD9 :: be 1 (zlen e_acute_128) ++ e_acute_128)
    <> Ok (VStr e_acute_128, length (0xD9 :: be 1 (zlen e_acute_128) ++ e_acute_128)).
Proof.
  assert (Hu : unpack R (0xD9 :: be 1 (zlen e_acute_128) ++ e_acute_128) = Ok (VStr [], 2%nat)).
  { vm_compute. reflexivity. }
  split; [|split; [exact Hu|]].
  - apply (ER_str _ 1%nat); [in_fmt | vm_compute; reflexivity | vm_compute; discriminate].
  - rewrite Hu. intros [=].
Qed.

(** C2: for a value without extension objects, under any registry, the
    encoder's output is a wire encoding of the value and no wire encoding
    of the value (any integer, string, binary, array or map format class
    that fits) is shorter. *)
Theorem pack_minimal R v bs :
  ext_free v = true -> pack R v = Ok bs ->
  wire_enc v bs /\ forall r, wire_enc v r -> (length bs <= length r)%nat.
Proof.
  intros Hf Hp. split; [eapply pack_wire; eauto|].
  intros r Hr. rewrite (pack_reg_indep R NoExt v Hf) in Hp.
  eapply (pack_min_mut NoExt); [|exact Hr|exact Hp].
  intros c d p H. discriminate H.
Qed.

Lemma pack_minimal_witness :
  wire_enc (VInt 5) [5] /\ forall r, wire_enc (VInt 5) r -> (length [5] <= length r)%nat.
Proof. apply (pack_minimal NoExt (VInt 5) [5]); reflexivity. Defined.

(** C3: a buffer starting with the reserved byte 0xC1 fails with
    [ReservedTag], whatever follows and under any registry. *)
Theorem unpack_reserved R rest : unpack R (0xC1 :: rest) = Err ReservedTag.
Proof. reflexivity. Qed.

(** C4: a request sent by session [A] is received by any peer [P] as that
    request with its msgid; a reply by [P] for that msgid, with a non-nil
    value sent as the result or as the error, is received by [A] (now
    [A']) as the response with that error and result and the caller's
    data, the msgid leaves the pending table, and receiving the same reply
    again fails with [UnknownResponseId].  The msgid counter is a uint32
    and the payloads carry no extension object. *)
Theorem session_round_trip {D D'} (A : session D) (P : session D') m p (data : D) B A' :
  is_u32 (next_id A) = true ->
  ext_free (VArray p) = true ->
  request A m p data = Ok (B, A') ->
  exists id,
    pending A' !! id = Some data /\
    receive P B = Ok (length B, RRequest m p id, P) /\
    forall v is_err C, v <> VNil -> ext_free v = true -> reply P id v is_err = Ok C ->
      exists A'',
        receive A' C = Ok (length C,
          RResponse (if is_err then v else VNil) (if is_err then VNil else v) data, A'') /\
        pending A'' = delete id (pending A') /\
        receive A'' C = Err UnknownResponseId.
Proof.
  intros Hid Hp Hreq. unfold request in Hreq.
  destruct (find_free _ _ _) as [id|] eqn:Hff; [|discriminate Hreq].
  destruct (pack (registry A) _) as [bs|e] eqn:Hpk; cbn [enc_err res_bind] in Hreq;
    [|discriminate Hreq].
  injection Hreq as <- <-.
  apply find_free_spec in Hff as [_ Hrange].
  assert (Hu32 : is_u32 id = true).
  { destruct Hrange as [-> | Hr]; [exact Hid|]. unfold is_u32, in_rng. lia. }
  exists id. split; [apply lookup_insert_eq|]. split.
  - unfold receive.
    assert (Hpk' : ext_free (VArray [VInt 0; VInt id; VStr m; VArray p]) = true).
    { cbn in *. now rewrite Hp. }
    rewrite (wire_pack_unpack (registry A) (registry P) _ bs Hpk' Hpk).
    cbn. rewrite Hu32. reflexivity.
  - intros v is_err C Hv Hfv Hrep. unfold reply in Hrep.
    destruct (pack (registry P) _) as [cs|e] eqn:Hpc; cbn [enc_err] in Hrep;
      [|discriminate Hrep].
    injection Hrep as <-.
    assert (Hsh : response_shape_ok (if is_err then v else VNil) (if is_err then VNil else v) = true).
    { destruct is_err; [apply response_shape_nil_r | apply response_shape_nil_l]; exact Hv. }
    assert (Hun : forall (S : session D), registry S = registry A ->
      unpack (registry S) cs = Ok (VArray [VInt 1; VInt id;
        if is_err then v else VNil; if is_err then VNil else v], length cs)).
    { intros S HS. rewrite HS. eapply wire_pack_unpack; [|exact Hpc].
      destruct is_err; cbn; now rewrite Hfv. }
    eexists. split.
    + unfold receive. rewrite Hun by reflexivity. cbn [dec_err res_bind].
      cbn -[response_shape_ok]. rewrite Hu32, Hsh.
      cbn. rewrite lookup_insert_eq. reflexivity.
    + split; [reflexivity|]. unfold receive. rewrite Hun by reflexivity. cbn [dec_err res_bind].
      cbn -[response_shape_ok]. rewrite Hu32, Hsh.
      cbn. rewrite lookup_delete_eq. reflexivity.
Qed.

Lemma session_round_trip_witness :
  exists id,
    pending (mk_session (<[0 := 7%nat]> ∅) 1 NoExt) !! id = Some 7%nat /\
    receive (new_session (D := nat) NoExt) [0x94; 0; 0; 0xA3; 102; 111; 111; 0x92; 1; 2]
      = Ok (length [0x94; 0; 0; 0xA3; 102; 111; 111; 0x92; 1; 2],
            RRequest [102; 111; 111] [VInt 1; VInt 2] id, new_session NoExt) /\
    forall v is_err C, v <> VNil -> ext_free v = true ->
      reply (new_session (D := nat) NoExt) id v is_err = Ok C ->
      exists A'',
        receive (mk_session (<[0 := 7%nat]> ∅) 1 NoExt) C
          = Ok (length C, RResponse (if is_err then v else VNil) (if is_err then VNil else v) 7%nat, A'') /\
        pending A'' = delete id (pending (mk_session (<[0 := 7%nat]> ∅) 1 NoExt)) /\
        receive A'' C = Err UnknownResponseId.
Proof.
  apply (session_round_trip (new_session NoExt) (new_session NoExt)
           [102; 111; 111] [VInt 1; VInt 2] 7%nat); reflexivity.
Defined.

(** C5: with no extension registry configured, a buffer whose header is an
    ext or fixext tag fails with [UnknownExtensionCode]; so does every
    well-formed encoding of a value holding an extension object at any
    depth (inside arrays and maps); and whatever the decoder does return
    carries no extension object. *)
Theorem unpack_noext_ext_tag :
  (forall b rest, is_ext_tag b = true -> unpack NoExt (b :: rest) = Err UnknownExtensionCode) /\
  (forall v r, wire_enc v r -> ext_free v = false -> unpack NoExt r = Err UnknownExtensionCode) /\
  (forall bs v n, unpack NoExt bs = Ok (v, n) -> ext_free v = true).
Proof.
  split; [|split].
  - intros b rest Hb. unfold unpack.
    replace (2 * length (b :: rest))%nat with (S (S (2 * length rest))) by (cbn; lia).
    cbn [unpack_at]. unfold is_ext_tag in Hb.
    destruct (header_class b); try discriminate Hb; reflexivity.
  - intros v r H Hf. unfold unpack. pose proof (need_bound _ _ _ H).
    pose proof (wire_noext_fail_mut v r H Hf (2 * length r) [] ltac:(lia)) as Hu.
    rewrite app_nil_r in Hu. rewrite Hu. reflexivity.
  - intros bs v n H. unfold unpack in H.
    destruct (unpack_at NoExt _ bs) as [[v' r]|e] eqn:Hu; cbn in H; [|discriminate H].
    injection H as <- _. eapply (proj1 (unpack_noext_free _)). exact Hu.
Qed.

(** A fixext nested in an array: [[0x91; 0xD4; 1; 1]]. *)
Lemma unpack_noext_ext_tag_witness :
  unpack NoExt [0x91; 0xD4; 1; 1] = Err UnknownExtensionCode.
Proof.
  apply (proj1 (proj2 unpack_noext_ext_tag) (VArray [VExt 1 [1]])); [|reflexivity].
  apply (ER_fixarray _ [VExt 1 [1]] [0xD4; 1; 1]); [|unfold zlen; simpl; lia].
  apply (EI_cons _ _ [] [0xD4; 1; 1] []); [|constructor].
  apply (ER_fixext _ 1); [in_fmt | lia | reflexivity].
Defined.

(** C6: under every registry (none, callable or finite mapping) [None],
    [[None, None]] and [1] encode to C0, 92 C0 C0 and 01; every legal
    value without extension objects encodes, to the same bytes whatever
    the registry. *)
Theorem pack_total_reg_indep :
  (forall R, pack R VNil = Ok [0xC0] /\ pack R (VArray [VNil; VNil]) = Ok [0x92; 0xC0; 0xC0] /\
             pack R (VInt 1) = Ok [0x01]) /\
  (forall R R' v, ext_free v = true -> legal v = true ->
     exists bs, pack R v = Ok bs /\ pack R' v = Ok bs).
Proof.
  split.
  - intros R. repeat split.
  - intros R R' v Hf Hl. destruct (pack_total R v Hf Hl) as [bs Hbs].
    exists bs. split; [exact Hbs|]. now rewrite <- (pack_reg_indep R R' v Hf).
Qed.



(** C8: under the test equality, where the expected value of a float is
    what [_float_postpack] makes of it, a NaN float equals the expected
    value of any other NaN float, whatever the two bit patterns and from
    either side, and [!=] is false.  The sentinel [nan] equals a float
    exactly when the float is a NaN, from either side, and is unequal to
    every object that is neither a float nor the sentinel itself. *)
Theorem nan_test_equality :
  (forall w w' b1 b2, NanEq.isnan w b1 = true -> NanEq.isnan w' b2 = true ->
     NanEq.py_eq (NanEq.PFloat w b1) (float_postpack w' b2) = true /\
     NanEq.py_eq (float_postpack w' b2) (NanEq.PFloat w b1) = true /\
     NanEq.py_ne (NanEq.PFloat w b1) (float_postpack w' b2) = false /\
     NanEq.py_ne (float_postpack w' b2) (NanEq.PFloat w b1) = false) /\
  (forall w b,
     NanEq.py_eq NanEq.PNan (NanEq.PFloat w b) = NanEq.isnan w b /\
     NanEq.py_eq (NanEq.PFloat w b) NanEq.PNan = NanEq.isnan w b /\
     NanEq.py_ne NanEq.PNan (NanEq.PFloat w b) = negb (NanEq.isnan w b) /\
     NanEq.py_ne (NanEq.PFloat w b) NanEq.PNan = negb (NanEq.isnan w b)) /\
  (forall o, (forall w b, o <> NanEq.PFloat w b) -> o <> NanEq.PNan ->
     NanEq.py_eq NanEq.PNan o = false /\ NanEq.py_eq o NanEq.PNan = false /\
     NanEq.py_ne NanEq.PNan o = true /\ NanEq.py_ne o NanEq.PNan = true).
Proof.
  split; [|split].
  - intros w w' b1 b2 H1 H2. unfold float_postpack. rewrite H2.
    cbn. rewrite H1. repeat split.
  - intros w b. repeat split.
  - intros o Hf Hn. destruct o; try (exfalso; eapply Hf; reflexivity);
      try congruence; repeat split.
Qed.

(** Two different float32 NaN payloads: the decoded [0x7F800001] against
    the expected value of [0x7FC00000]. *)
Lemma nan_test_equality_witness :
  NanEq.py_eq (NanEq.PFloat NanEq.F32 0x7F800001) (float_postpack NanEq.F32 0x7FC00000) = true /\
  NanEq.py_ne (NanEq.PFloat NanEq.F32 0x7F800001) (float_postpack NanEq.F32 0x7FC00000) = false.
Proof.
  destruct (proj1 nan_test_equality NanEq.F32 NanEq.F32 0x7F800001 0x7FC00000)
    as [H1 [_ [H3 _]]]; [vm_compute; reflexivity | vm_compute; reflexivity |].
  split; [exact H1 | exact H3].
Defined.

(** For C10: on a [%c]/[%s] format with matching arguments, the native
    interpolation consumes every argument and writes what the fallback
    writes. *)
Lemma native_go_manual B args :
  Bfmt.only_c_s B = true -> Bfmt.args_fit (Bfmt.directives B) args ->
  Bfmt.native_go B args = (fun r => (r, [])) <$> Bfmt.bfmt_manual B args.
Proof.
  remember (length B) as k eqn:Hk. assert (Hle : (length B <= k)%nat) by lia. clear Hk.
  revert B args Hle. induction k as [|k IHk]; intros [|ch t] args Hle Hs Ha;
    cbn [length] in Hle; try lia.
  1, 2: destruct args; [reflexivity | destruct Ha].
  assert (IH : forall B' args', (length B' <= k)%nat -> Bfmt.only_c_s B' = true ->
    Bfmt.args_fit (Bfmt.directives B') args' ->
    Bfmt.native_go B' args' = (fun r => (r, [])) <$> Bfmt.bfmt_manual B' args').
  { intros B' args' HB'. apply IHk. exact HB'. }
  clear IHk.
  - cbn [Bfmt.only_c_s Bfmt.directives Bfmt.native_go Bfmt.bfmt_manual] in *.
    destruct (Z.eqb_spec ch Bfmt.pct) as [->|Hch].
    + destruct t as [|spec t']; [discriminate Hs|].
      apply andb_prop in Hs as [Hcs Ht].
      destruct (Z.eqb_spec spec Bfmt.chr_c) as [->|Hc].
      * destruct args as [|[n|b] args']; try destruct Ha. cbn.
        destruct (in_rng 0 255 n); [|reflexivity].
        rewrite (IH t' args') by (cbn in Hle; lia || assumption). cbn -[Bfmt.bfmt_manual].
        destruct (Bfmt.bfmt_manual t' args'); reflexivity.
      * destruct (Z.eqb_spec spec Bfmt.chr_s) as [->|Hs']; [|cbn in Hcs; lia].
        destruct args as [|[n|b] args']; try destruct Ha. cbn.
        rewrite (IH t' args') by (cbn in Hle; lia || assumption). cbn -[Bfmt.bfmt_manual].
        destruct (Bfmt.bfmt_manual t' args'); reflexivity.
    + rewrite (IH t args) by (lia || assumption).
      destruct (Bfmt.bfmt_manual t args); reflexivity.
Qed.

(** C10: for a format whose directives are only [%c] and [%s] and an
    argument list with one argument per directive, an [int] for each [%c]
    and a bytes object for each [%s], the fallback [bfmt] and [B % args]
    give the same result (the same bytes, or both raise). *)
Theorem bfmt_equiv B args :
  Bfmt.only_c_s B = true -> Bfmt.args_fit (Bfmt.directives B) args ->
  Bfmt.bfmt_manual B args = Bfmt.bfmt_native B args.
Proof.
  intros Hs Ha. unfold Bfmt.bfmt_native. rewrite (native_go_manual B args Hs Ha).
  destruct (Bfmt.bfmt_manual B args); reflexivity.
Qed.

Lemma bfmt_equiv_witness :
  Bfmt.bfmt_manual [37; 99; 37; 115] [Bfmt.AInt 65; Bfmt.ABytes [66; 67]]
  = Bfmt.bfmt_native [37; 99; 37; 115] [Bfmt.AInt 65; Bfmt.ABytes [66; 67]].
Proof. apply bfmt_equiv; [reflexivity | exact I]. Defined.

(* ------------------------------------------------------------------ *)
(** * Further properties *)

(** The encoder's own output round-trips: a value without extension
    objects that [pack] encodes under one registry decodes, under any
    registry, to itself with every byte consumed. *)
Theorem pack_unpack_round_trip R R' v bs :
  ext_free v = true -> pack R v = Ok bs -> unpack R' bs = Ok (v, length bs).
Proof. intros Hf Hp. exact (wire_pack_unpack R R' v bs Hf Hp). Qed.

Lemma pack_unpack_round_trip_witness :
  unpack NoExt [0x92; 0xC0; 0xC0] = Ok (VArray [VNil; VNil], length [0x92; 0xC0; 0xC0]).
Proof. apply (pack_unpack_round_trip ext_std NoExt (VArray [VNil; VNil])); reflexivity. Defined.

(** Every encoding in the format's tables (any width that fits, minimal
    or not, as the reference strategies draw them with a byte-length bound
    on text) decodes to its value with every byte consumed: under any
    registry for a value without extension objects, and under the tests'
    registry [ext_std] for every value, fixext and ext included. *)
Theorem wire_decode_complete R v r :
  wire_enc v r -> ext_free v = true \/ R = ext_std -> unpack R r = Ok (v, length r).
Proof.
  intros H [Hf | ->]; [exact (wire_unpack R v r H Hf)|].
  unfold unpack. pose proof (need_bound _ _ _ H).
  pose proof (wire_unpack_std_at_mut v r H (2 * length r) [] ltac:(lia)) as Hu.
  rewrite app_nil_r in Hu. rewrite Hu. cbn. do 2 f_equal. lia.
Qed.

Lemma wire_decode_complete_witness :
  unpack NoExt [0xCC; 5] = Ok (VInt 5, length [0xCC; 5]) /\
  unpack ext_std [0xC7; 1; 5; 9] = Ok (VExt 5 [9], length [0xC7; 1; 5; 9]).
Proof.
  split.
  - apply (wire_decode_complete NoExt (VInt 5) [0xCC; 5]); [|left; reflexivity].
    apply (ER_uint _ 1%nat); [in_fmt | unfold umax; simpl; lia].
  - apply (wire_decode_complete ext_std (VExt 5 [9]) [0xC7; 1; 5; 9]); [|right; reflexivity].
    apply (ER_ext _ 1%nat 0xC7 5 [9]); [in_fmt | lia | unfold zlen, umax; simpl; lia].
Defined.

(** ** [_limit_size] *)

(** Whenever [_limit_size] returns, the max size is given; with
    [hard_size] both bounds are [hard_size]; with [hard_max_size] the max
    is at most [hard_max_size] and at most the caller's [max_size]; a
    returned min size is at most the max, and a returned average then lies
    between them; the average is [None], the caller's, or the default. *)
Theorem limit_size_bounds mn av mx hm hs d mn' av' mx' :
  limit_size mn av mx hm hs d = Ok (mn', av', mx') ->
  exists m, mx' = Some m /\
    (forall s, hs = Some s -> mn' = Some s /\ m = s) /\
    (forall h, hm = Some h -> m <= h /\ (forall x, mx = Some x -> m <= x)) /\
    (forall n, mn' = Some n -> n <= m /\ (forall a, av' = Some a -> n <= a <= m)) /\
    (av' = None \/ av' = match av with Some a => Some a | None => d end).
Proof.
  intros H. unfold limit_size, opt_gt in H.
  destruct mn as [n|], av as [a|], mx as [x|], hm as [h|], hs as [s|], d as [e|];
    cbn [res_bind] in H;
    repeat (match type of H with
            | context [?p <? ?q] => destruct (Z.ltb_spec0 p q)
            | context [?p <=? ?q] => destruct (Z.leb_spec0 p q)
            end; cbn [res_bind andb] in H);
    try discriminate H; injection H as <- <- <-;
    eexists; (split; [reflexivity|]);
    repeat split; intros; simplify_eq; auto; lia.
Qed.

Lemma limit_size_bounds_witness :
  exists m, Some 15 = Some m /\
    (forall s, @None Z = Some s -> Some 15 = Some s /\ m = s) /\
    (forall h, Some 15 = Some h -> m <= h /\ (forall x, @None Z = Some x -> m <= x)) /\
    (forall n, Some 15 = Some n -> n <= m /\ (forall a, @None Z = Some a -> n <= a <= m)) /\
    (@None Z = None \/ @None Z = Some 6).
Proof. apply (limit_size_bounds (Some 20) None None (Some 15) None (Some 6)). reflexivity. Defined.

(** With neither [min_size] nor [hard_size] (the [hard_max_size] case),
    [_limit_size] checks the average only against the caller's [max_size]:
    it returns the caller's average or the default, unchecked, next to
    the max [min(max_size, hard_max_size)]. *)
Theorem limit_size_average_unchecked av mx h d :
  limit_size None av mx (Some h) None d =
    if opt_gt av mx then Err SizeValueError
    else Ok (None, match av with Some a => Some a | None => d end,
             Some (match mx with Some x => Z.min x h | None => h end)).
Proof.
  unfold limit_size, opt_gt.
  destruct av as [a|], mx as [x|]; cbn [res_bind];
    repeat (match goal with
            | |- context [?p <? ?q] => destruct (Z.ltb_spec0 p q)
            end; cbn [res_bind]); try reflexivity; do 3 f_equal; lia.
Qed.

(** [fixarray(array_contents(max_size=3))]: [_limit_size(None, None, 3,
    hard_max_size=15, default_average_size=6)] returns the average 6 with
    the max 3. *)
Lemma limit_size_average_unchecked_witness :
  limit_size None None (Some 3) (Some 15) None (Some 6) = Ok (None, Some 6, Some 3).
Proof. rewrite limit_size_average_unchecked. reflexivity. Defined.

(** ** [ext_pack] and [ext_unpack] *)

Lemma ext_classes_lookup i : (i < 128)%nat -> ext_classes !! i = Some (Z.of_nat i).
Proof. intros Hi. unfold ext_classes. rewrite list_lookup_fmap, lookup_seq_lt by lia. reflexivity. Qed.

(** [ext_pack(ext_unpack(code, data))] is [(code, data)] for a code in
    [0..127]; a code in [-128..-1] indexes [ext_classes] from its end and
    comes back as [code + 128]; any other code raises [IndexError]. *)
Theorem ext_unpack_pack c d :
  (0 <= c <= 127 -> ext_pack <$> ext_unpack c d = Some (c, d)) /\
  (-128 <= c <= -1 -> ext_pack <$> ext_unpack c d = Some (c + 128, d)) /\
  (c < -128 \/ 127 < c -> ext_unpack c d = None).
Proof.
  assert (Hl : zlen ext_classes = 128) by reflexivity.
  unfold ext_unpack, py_index. rewrite Hl.
  split; [|split]; intros Hc;
    repeat (match goal with
            | |- context [?p <=? ?q] => destruct (Z.leb_spec0 p q)
            | |- context [?p <? ?q] => destruct (Z.ltb_spec0 p q)
            end; cbn [andb]); try lia; try reflexivity;
    rewrite ext_classes_lookup by lia; cbn;
    rewrite Z2Nat.id by lia; unfold ext_pack; cbn; try reflexivity; do 2 f_equal; lia.
Qed.

(** ** [_float_postpack] *)

Lemma class_eq_refl c : c <> NanEq.CNaN -> NanEq.class_eq c c = true.
Proof.
  destruct c as [|s|a e]; intros H; [congruence | destruct s; reflexivity |].
  cbn. unfold NanEq.num_eq. rewrite Z.min_id, Z.sub_diag. apply Z.eqb_refl.
Qed.

(** A float read back with its own bits compares equal (and not unequal)
    to the expected value [_float_postpack] makes of it, for every width
    and every bit pattern, NaNs included. *)
Theorem float_postpack_equal w bits :
  NanEq.py_eq (NanEq.PFloat w bits) (float_postpack w bits) = true /\
  NanEq.py_ne (NanEq.PFloat w bits) (float_postpack w bits) = false.
Proof.
  unfold float_postpack. destruct (NanEq.isnan w bits) eqn:Hn.
  - cbn. rewrite Hn. split; reflexivity.
  - unfold NanEq.isnan in Hn.
    assert (Hc : NanEq.classify w bits <> NanEq.CNaN) by (intros E; rewrite E in Hn; discriminate).
    cbn -[NanEq.classify NanEq.class_eq]. rewrite class_eq_refl by exact Hc. split; reflexivity.
Qed.

(** ** [compat.bfmt] beyond the shared formats *)

(** The fallback [bfmt] raises on every format that has a directive other
    than [%c] and [%s] (the escape [%%] included) or ends in a lone ['%'],
    whatever the arguments. *)
Theorem bfmt_manual_rejects B args :
  Bfmt.only_c_s B = false -> Bfmt.bfmt_manual B args = None.
Proof.
  remember (length B) as k eqn:Hk. assert (Hle : (length B <= k)%nat) by lia. clear Hk.
  revert B args Hle. induction k as [|k IH]; intros [|ch t] args Hle Hs;
    cbn [length] in Hle; try lia; try discriminate Hs.
  cbn [Bfmt.only_c_s Bfmt.bfmt_manual] in *.
  destruct (Z.eqb_spec ch Bfmt.pct) as [->|Hch].
  - destruct t as [|spec t']; [reflexivity|].
    cbn [length] in Hle.
    destruct (Z.eqb_spec spec Bfmt.chr_c) as [->|Hc].
    + cbn [orb andb] in Hs. destruct args as [|[n|b] args']; try reflexivity.
      destruct (in_rng 0 255 n); [|reflexivity].
      rewrite (IH t' args') by (lia || assumption). reflexivity.
    + destruct (Z.eqb_spec spec Bfmt.chr_s) as [->|Hs']; [|reflexivity].
      cbn [orb andb] in Hs. destruct args as [|[n|b] args']; try reflexivity.
      rewrite (IH t' args') by (lia || assumption). reflexivity.
  - rewrite (IH t args) by (lia || assumption). reflexivity.
Qed.

(** [b"%%"]: the fallback raises where [B % ()] gives [b"%"]. *)
Lemma bfmt_manual_rejects_witness :
  Bfmt.bfmt_manual [37; 37] [] = None /\ Bfmt.bfmt_native [37; 37] [] = Some [37].
Proof. split; [apply bfmt_manual_rejects; reflexivity | reflexivity]. Defined.

Lemma bfmt_manual_app B args extra :
  Bfmt.only_c_s B = true -> Bfmt.args_fit (Bfmt.directives B) args ->
  Bfmt.bfmt_manual B (args ++ extra) = Bfmt.bfmt_manual B args.
Proof.
  remember (length B) as k eqn:Hk. assert (Hle : (length B <= k)%nat) by lia. clear Hk.
  revert B args Hle. induction k as [|k IH]; intros [|ch t] args Hle Hs Ha;
    cbn [length] in Hle; try lia; try reflexivity.
  cbn [Bfmt.only_c_s Bfmt.directives Bfmt.bfmt_manual] in *.
  destruct (Z.eqb_spec ch Bfmt.pct) as [->|Hch].
  - destruct t as [|spec t']; [reflexivity|].
    apply andb_prop in Hs as [Hcs Ht]. cbn [length] in Hle.
    destruct (Z.eqb_spec spec Bfmt.chr_c) as [->|Hc].
    + destruct args as [|[n|b] args']; try destruct Ha. cbn [app].
      destruct (in_rng 0 255 n); [|reflexivity].
      rewrite (IH t' args') by (lia || assumption). reflexivity.
    + destruct (Z.eqb_spec spec Bfmt.chr_s) as [->|Hs']; [|cbn in Hcs; lia].
      destruct args as [|[n|b] args']; try destruct Ha. cbn [app].
      rewrite (IH t' args') by (lia || assumption). reflexivity.
  - rewrite (IH t args) by (lia || assumption). reflexivity.
Qed.

Lemma native_go_extra B args extra :
  Bfmt.only_c_s B = true -> Bfmt.args_fit (Bfmt.directives B) args ->
  Bfmt.native_go B (args ++ extra) = (fun r => (r, extra)) <$> Bfmt.bfmt_manual B args.
Proof.
  remember (length B) as k eqn:Hk. assert (Hle : (length B <= k)%nat) by lia. clear Hk.
  revert B args Hle. induction k as [|k IH]; intros [|ch t] args Hle Hs Ha;
    cbn [length] in Hle; try lia.
  1, 2: destruct args; [reflexivity | destruct Ha].
  cbn [Bfmt.only_c_s Bfmt.directives Bfmt.native_go Bfmt.bfmt_manual] in *.
  destruct (Z.eqb_spec ch Bfmt.pct) as [->|Hch].
  - destruct t as [|spec t']; [discriminate Hs|].
    apply andb_prop in Hs as [Hcs Ht]. cbn [length] in Hle.
    destruct (Z.eqb_spec spec Bfmt.chr_c) as [->|Hc].
    + destruct args as [|[n|b] args']; try destruct Ha. cbn.
      destruct (in_rng 0 255 n); [|reflexivity].
      rewrite (IH t' args') by (lia || assumption). cbn -[Bfmt.bfmt_manual].
      destruct (Bfmt.bfmt_manual t' args'); reflexivity.
    + destruct (Z.eqb_spec spec Bfmt.chr_s) as [->|Hs']; [|cbn in Hcs; lia].
      destruct args as [|[n|b] args']; try destruct Ha. cbn.
      rewrite (IH t' args') by (lia || assumption). cbn -[Bfmt.bfmt_manual].
      destruct (Bfmt.bfmt_manual t' args'); reflexivity.
  - rewrite (IH t args) by (lia || assumption).
    destruct (Bfmt.bfmt_manual t args); reflexivity.
Qed.

(** Arguments beyond the directives of a [%c]/[%s] format: the fallback
    ignores them, while [B % args] raises ("not all arguments
    converted"). *)
Theorem bfmt_surplus_args B args extra :
  Bfmt.only_c_s B = true -> Bfmt.args_fit (Bfmt.directives B) args -> extra <> [] ->
  Bfmt.bfmt_manual B (args ++ extra) = Bfmt.bfmt_manual B args /\
  Bfmt.bfmt_native B (args ++ extra) = None.
Proof.
  intros Hs Ha He. split; [exact (bfmt_manual_app B args extra Hs Ha)|].
  unfold Bfmt.bfmt_native. rewrite (native_go_extra B args extra Hs Ha).
  destruct (Bfmt.bfmt_manual B args); [|reflexivity].
  destruct extra; [congruence | reflexivity].
Qed.

Lemma bfmt_surplus_args_witness :
  Bfmt.bfmt_manual [37; 99] ([Bfmt.AInt 65] ++ [Bfmt.AInt 66]) = Bfmt.bfmt_manual [37; 99] [Bfmt.AInt 65] /\
  Bfmt.bfmt_native [37; 99] ([Bfmt.AInt 65] ++ [Bfmt.AInt 66]) = None.
Proof. apply bfmt_surplus_args; [reflexivity | exact I | discriminate]. Defined.

(** ** The scalar strategies of the binding's [strategies.py] *)

Lemma native_c n :
  in_rng 0 255 n = true -> Bfmt.bfmt_native [Bfmt.pct; Bfmt.chr_c] [Bfmt.AInt n] = Some [n].
Proof. intros H. unfold Bfmt.bfmt_native. cbn. rewrite H. reflexivity. Qed.

Lemma native_cs n b :
  in_rng 0 255 n = true ->
  Bfmt.bfmt_native [Bfmt.pct; Bfmt.chr_c; Bfmt.pct; Bfmt.chr_s] [Bfmt.AInt n; Bfmt.ABytes b]
  = Some (n :: b).
Proof. intros H. unfold Bfmt.bfmt_native. cbn. rewrite H. cbn. rewrite app_nil_r. reflexivity. Qed.

Lemma native_css n b c :
  in_rng 0 255 n = true ->
  Bfmt.bfmt_native [Bfmt.pct; Bfmt.chr_c; Bfmt.pct; Bfmt.chr_s; Bfmt.pct; Bfmt.chr_s]
    [Bfmt.AInt n; Bfmt.ABytes b; Bfmt.ABytes c] = Some (n :: b ++ c).
Proof. intros H. unfold Bfmt.bfmt_native. cbn. rewrite H. cbn. rewrite app_nil_r. reflexivity. Qed.

(** [nil], [bool], [positive_fixnum], [negative_fixnum], [uint8..64] and
    [int8..64]: on every value of its source the pack succeeds, and the
    bytes decode, under any registry, to that value with every byte
    consumed (the [unpack] half of [packer_correct]). *)
Theorem binding_scalar_numbers R :
  unpack R Binding.nil_pack = Ok (VNil, length Binding.nil_pack) /\
  (forall b, unpack R (Binding.bool_pack b) = Ok (VBool b, length (Binding.bool_pack b))) /\
  (forall n, 0 <= n <= 127 -> exists bs,
     Binding.positive_fixnum_pack n = Some bs /\ unpack R bs = Ok (VInt n, length bs)) /\
  (forall n, -32 <= n <= -1 -> exists bs,
     Binding.negative_fixnum_pack n = Some bs /\ unpack R bs = Ok (VInt n, length bs)) /\
  (forall i n, (i < 4)%nat -> 0 <= n <= umax (2 ^ i) -> exists bs,
     Binding.uint_pack i n = Some bs /\ unpack R bs = Ok (VInt n, length bs)) /\
  (forall i n, (i < 4)%nat ->
     - 2 ^ (8 * Z.of_nat (2 ^ i) - 1) <= n < 2 ^ (8 * Z.of_nat (2 ^ i) - 1) -> exists bs,
     Binding.int_pack i n = Some bs /\ unpack R bs = Ok (VInt n, length bs)).
Proof.
  split; [reflexivity|]. split; [intros []; reflexivity|].
  split; [|split; [|split]].
  - intros n Hn. exists [n]. split.
    + apply native_c. unfold in_rng. zsplit.
    + apply wire_unpack; [|reflexivity]. apply ER_positive_fixnum. exact Hn.
  - intros n Hn. exists [Z.lor (n + 256) 0xE0]. split.
    + apply native_c. rewrite (Z.add_comm n 256), Z.lor_comm, lor_E0 by lia. unfold in_rng. zsplit.
    + apply wire_unpack; [|reflexivity]. rewrite (Z.add_comm n 256), Z.lor_comm.
      apply ER_negative_fixnum. exact Hn.
  - intros i n Hi Hn.
    destruct i as [|[|[|[|i]]]]; try lia; unfold Binding.uint_pack, Binding.num_st_pack;
      (eexists; split; [apply native_cs; reflexivity|]);
      (apply wire_unpack; [|reflexivity]);
      (first [ apply (ER_uint _ 1%nat) | apply (ER_uint _ 2%nat)
             | apply (ER_uint _ 4%nat) | apply (ER_uint _ 8%nat) ]; [in_fmt | exact Hn]).
  - intros i n Hi Hn.
    destruct i as [|[|[|[|i]]]]; try lia; unfold Binding.int_pack, Binding.num_st_pack;
      (eexists; split; [apply native_cs; reflexivity|]);
      (apply wire_unpack; [|reflexivity]);
      (first [ apply (ER_int _ 1%nat) | apply (ER_int _ 2%nat)
             | apply (ER_int _ 4%nat) | apply (ER_int _ 8%nat) ]; [in_fmt | exact Hn]).
Qed.

(** [bin8..32], [fixstr] and [str8..32]: the sources bound the payload in
    bytes ([binary(max_size=...)], and [_text]'s filter on the UTF-8
    length), so every drawn payload packs and decodes back to itself with
    every byte consumed, texts of multi-byte characters included. *)
Theorem binding_bin_str R :
  (forall i d, (i < 3)%nat -> zlen d <= Binding.src_max i -> exists bs,
     Binding.bin_pack i d = Some bs /\ unpack R bs = Ok (VBin d, length bs)) /\
  (forall d, utf8_valid d = true -> Binding.text_ok 31 d = true -> exists bs,
     Binding.fixstr_pack d = Some bs /\ unpack R bs = Ok (VStr d, length bs)) /\
  (forall i d, (i < 3)%nat -> utf8_valid d = true ->
     Binding.text_ok (Binding.src_max i) d = true -> exists bs,
     Binding.pack_str i d = Some bs /\ unpack R bs = Ok (VStr d, length bs)).
Proof.
  split; [|split].
  - intros i d Hi Hd.
    destruct i as [|[|[|i]]]; try lia; unfold Binding.bin_pack, Binding.pack_bin, Binding.int_tobytes;
      (eexists; split; [apply native_css; reflexivity|]);
      (apply wire_unpack; [|reflexivity]);
      (first [ apply (ER_bin _ 1%nat) | apply (ER_bin _ 2%nat) | apply (ER_bin _ 4%nat) ];
       [in_fmt | exact Hd]).
  - intros d Hv Hd. unfold Binding.text_ok in Hd. apply Z.leb_le in Hd.
    pose proof (zlen_nonneg d).
    eexists; split; [apply native_cs; rewrite lor_A0 by lia; unfold in_rng; zsplit|].
    apply wire_unpack; [|reflexivity]. apply ER_fixstr; [exact Hv | exact Hd].
  - intros i d Hi Hv Hd. unfold Binding.text_ok in Hd. apply Z.leb_le in Hd.
    destruct i as [|[|[|i]]]; try lia; unfold Binding.pack_str, Binding.pack_bin, Binding.int_tobytes;
      (eexists; split; [apply native_css; reflexivity|]);
      (apply wire_unpack; [|reflexivity]);
      (first [ apply (ER_str _ 1%nat) | apply (ER_str _ 2%nat) | apply (ER_str _ 4%nat) ];
       [in_fmt | exact Hv | exact Hd]).
Qed.

(** [float32, float64 = (_num_st(0xca + i, ...) for i in range(2, 4))]
    writes the headers [0xcc] and [0xcd], the tags of uint8 and uint16:
    the packed float decodes as an unsigned integer made of its first
    one or two bytes, after 2 or 3 of its 5 or 9 bytes. *)
Theorem binding_float_header R bits :
  Binding.float_pack 2 bits = Some (0xCC :: be 4 bits) /\
  unpack R (0xCC :: be 4 bits) = Ok (VInt ((bits / 256 ^ 3) mod 256), 2%nat) /\
  Binding.float_pack 3 bits = Some (0xCD :: be 8 bits) /\
  unpack R (0xCD :: be 8 bits)
    = Ok (VInt ((bits / 256 ^ 7) mod 256 * 256 + (bits / 256 ^ 6) mod 256), 3%nat).
Proof.
  unfold Binding.float_pack, Binding.num_st_pack.
  split; [apply native_cs; reflexivity|]. split; [|split; [apply native_cs; reflexivity|]].
  - unfold unpack. cbn -[Z.div Z.modulo Z.pow Z.mul Z.add].
    do 3 f_equal. cbn [Z.of_nat]. lia.
  - unfold unpack. cbn -[Z.div Z.modulo Z.pow Z.mul Z.add].
    do 3 f_equal. cbn [Z.of_nat]. lia.
Qed.

(** ** Draws of [everything()] and [msg()] *)

Lemma ascii_py_str_len d : forallb (fun b => b <? 0x80) d = true -> py_str_len d = zlen d.
Proof.
  unfold py_str_len. intros H. f_equal.
  induction d as [|b d IH]; [reflexivity|].
  cbn [forallb] in H. apply andb_prop in H as [Hb Hd]. apply Z.ltb_lt in Hb.
  rewrite filter_cons. rewrite decide_True.
  - rewrite IH by exact Hd. reflexivity.
  - unfold cont, in_rng. destruct (Z.leb_spec0 0x80 b); [lia|]. exact I.
Qed.

Lemma ref_ascii_wire v r : ref_enc v r -> text_ascii v = true -> wire_enc v r.
Proof.
  intros H. unfold ref_enc in H.
  induction H using enc_rel_mut with
    (P0 := fun l bs _ => forallb text_ascii l = true -> enc_items (fun k d => zlen d <= umax k) l bs)
    (P1 := fun l bs _ => forallb (fun kv => text_ascii kv.1 && text_ascii kv.2) l = true ->
             enc_pairs (fun k d => zlen d <= umax k) l bs);
    intros Ha; cbn [text_ascii forallb fst snd] in Ha; unfold wire_enc in *.
  - constructor.
  - constructor.
  - constructor; assumption.
  - constructor; assumption.
  - econstructor; eassumption.
  - econstructor; eassumption.
  - constructor; assumption.
  - constructor; assumption.
  - econstructor; eassumption.
  - constructor; assumption.
  - econstructor; [eassumption | assumption |]. rewrite <- ascii_py_str_len by exact Ha. exact s.
  - econstructor; eassumption.
  - econstructor; eassumption.
  - constructor; auto.
  - econstructor; eauto.
  - constructor; auto.
  - econstructor; eauto.
  - constructor.
  - apply andb_prop in Ha as [Hx Ht]. constructor; auto.
  - constructor.
  - apply andb_prop in Ha as [Hkx Ht]. apply andb_prop in Hkx as [Hk Hx]. constructor; auto.
Qed.

(** A value and its bytes as the reference strategies draw them
    ([_do_*], [_concat_elements], [_concat_items], no extension objects,
    as in [everything()]) decode to the value with every byte consumed
    when its texts are ASCII, where a text's length in characters is its
    length in bytes. *)
Theorem ref_ascii_decodes R v r :
  ref_enc v r -> ext_free v = true -> text_ascii v = true -> unpack R r = Ok (v, length r).
Proof. intros H Hf Ha. apply wire_unpack; [apply ref_ascii_wire|]; assumption. Qed.

(** [str8] drawing the text ["A"]. *)
Lemma ref_ascii_decodes_witness :
  unpack NoExt [0xD9; 1; 65] = Ok (VStr [65], length [0xD9; 1; 65]).
Proof.
  apply (ref_ascii_decodes NoExt (VStr [65]) [0xD9; 1; 65]); [|reflexivity | reflexivity].
  apply (ER_str _ 1%nat 0xD9 [65]); [in_fmt | reflexivity | vm_compute; discriminate].
Defined.


(** A message [msg()] draws, packed as a [fixarray] of the type index
    and the drawn tail, decodes to that array with every byte consumed
    when the tail's texts are ASCII. *)
Theorem msg_decodes R k tail bs :
  msg_gen k tail bs -> forallb text_ascii tail = true ->
  unpack R bs = Ok (VArray (VInt (msg_type_index k) :: tail), length bs).
Proof.
  set (wg := fun (k : nat) (d : list Z) => zlen d <= umax k).
  intros H Ha. apply wire_unpack.
  - destruct H as [id m p bm bp Hid Hm Hp Hpf | id e be_ Hid He Hef
                  | id r br Hid Hr Hrf | m p bm bp Hm Hp Hpf];
      cbn [forallb text_ascii andb] in Ha; rewrite ?andb_true_r in Ha.
    + apply andb_prop in Ha as [Ham Hap].
      pose proof (EI_cons wg _ _ _ _ (ER_positive_fixnum wg 0 ltac:(lia))
        (EI_cons wg _ _ _ _ (ER_uint wg 4%nat 0xCE id ltac:(in_fmt) Hid)
        (EI_cons wg _ _ _ _ (ref_ascii_wire _ _ Hm Ham)
        (EI_cons wg _ _ _ _ (ref_ascii_wire _ _ Hp Hap) (EI_nil wg))))) as Hi.
      pose proof (ER_fixarray wg _ _ Hi ltac:(unfold zlen; simpl length; lia)) as He.
      rewrite app_nil_r in He. exact He.
    + pose proof (EI_cons wg _ _ _ _ (ER_positive_fixnum wg 1 ltac:(lia))
        (EI_cons wg _ _ _ _ (ER_uint wg 4%nat 0xCE id ltac:(in_fmt) Hid)
        (EI_cons wg _ _ _ _ (ref_ascii_wire _ _ He Ha)
        (EI_cons wg _ _ _ _ (ER_nil wg) (EI_nil wg))))) as Hi.
      pose proof (ER_fixarray wg _ _ Hi ltac:(unfold zlen; simpl length; lia)) as Hw.
      rewrite app_nil_r in Hw. exact Hw.
    + pose proof (EI_cons wg _ _ _ _ (ER_positive_fixnum wg 1 ltac:(lia))
        (EI_cons wg _ _ _ _ (ER_uint wg 4%nat 0xCE id ltac:(in_fmt) Hid)
        (EI_cons wg _ _ _ _ (ER_nil wg)
        (EI_cons wg _ _ _ _ (ref_ascii_wire _ _ Hr Ha) (EI_nil wg))))) as Hi.
      pose proof (ER_fixarray wg _ _ Hi ltac:(unfold zlen; simpl length; lia)) as Hw.
      rewrite app_nil_r in Hw. exact Hw.
    + apply andb_prop in Ha as [Ham Hap].
      pose proof (EI_cons wg _ _ _ _ (ER_positive_fixnum wg 2 ltac:(lia))
        (EI_cons wg _ _ _ _ (ref_ascii_wire _ _ Hm Ham)
        (EI_cons wg _ _ _ _ (ref_ascii_wire _ _ Hp Hap) (EI_nil wg)))) as Hi.
      pose proof (ER_fixarray wg _ _ Hi ltac:(unfold zlen; simpl length; lia)) as Hw.
      rewrite app_nil_r in Hw. exact Hw.
  - destruct H; cbn; rewrite ?andb_true_r; auto.
Qed.

(** The notification [("notification", "A", [])]. *)
Lemma msg_decodes_witness :
  unpack NoExt [0x93; 2; 0xA1; 65; 0x90]
  = Ok (VArray [VInt 2; VStr [65]; VArray []], length [0x93; 2; 0xA1; 65; 0x90]).
Proof.
  apply (msg_decodes NoExt MNotification [VStr [65]; VArray []]); [|reflexivity].
  apply (MG_notification [65] [] [0xA1; 65] [0x90]).
  - apply (ER_fixstr _ [65]); [reflexivity | unfold zlen; simpl; lia].
  - apply (ER_fixarray _ [] []); [constructor | unfold zlen; simpl; lia].
  - reflexivity.
Defined.
